(** * captchaAPI: the challenge lifecycle and its leaves

    A shallow embedding of [app/views.py] (identifier generator, handle
    codec, the three request handlers) and of [utils/noise.py]
    ([salt_and_pepper]), with the properties of the design document
    stated over it.

    Conventions.
    - A Python [str] is held as its UTF-8 byte sequence in a Rocq [string];
      [bytes(s, "utf-8")] is then the list of its byte values and equality
      of [str] values is equality of [string]s.
    - Python integers are [Z].  The limits of a challenge are ints in the
      handlers of section [Handlers]; module [Raw] has the same handlers
      over whatever JSON value the request holds (int, float, NaN, ...),
      and the two agree on int limits.
    - The two tables [flask_app.captcha_cdn] and
      [flask_app.captchas_solution] are finite maps keyed by handle; a
      [KeyError] is a failed lookup.
    - [secrets] and [datetime.utcnow] are read from an oracle: the n-th
      draw and the n-th clock reading of a request are given from outside. *)

From Stdlib Require Import ZArith QArith Floats Ascii String DecimalString.
From Stdlib Require DecimalPos DecimalZ.
From Stdlib Require Import Lqa.
From stdpp Require Import gmap strings list.

Set Warnings "-inexact-float".

Open Scope Z_scope.

(** ** Entropy and clock *)

Module Eff.

Record oracle := Oracle {
  draws : nat -> nat;   (* raw output of the system CSPRNG *)
  ticks : nat -> Z      (* successive readings of the UTC clock, in microseconds *)
}.

Record cursor := Cursor { drawn : nat; ticked : nat }.

Definition start : cursor := Cursor 0 0.

Definition t (A : Type) : Type := oracle -> cursor -> A * cursor.

Definition ret {A} (a : A) : t A := fun _ c => (a, c).

Definition bind {A B} (m : t A) (k : A -> t B) : t B :=
  fun o c => let (a, c') := m o c in k a o c'.

Definition run {A} (m : t A) (o : oracle) : A := fst (m o start).

(** [secrets.randbelow(n)] *)
Definition randbelow (n : nat) : t nat :=
  fun o c => ((draws o (drawn c) mod n)%nat, Cursor (S (drawn c)) (ticked c)).

(** [secrets.choice(seq)]: [seq[randbelow(len(seq))]] *)
Definition choice {A} (d : A) (seq : list A) : t A :=
  bind (randbelow (length seq)) (fun i => ret (nth i seq d)).

(** [datetime.datetime.utcnow()] *)
Definition utcnow : t Z :=
  fun o c => (ticks o (ticked c), Cursor (drawn c) (S (ticked c))).

End Eff.

Notation "x <- m ;; k" := (Eff.bind m (fun x => k))
  (at level 100, m at next level, right associativity).

(** ** Text helpers *)

Definition chars (s : string) : list ascii := list_ascii_of_string s.

Definition code (c : ascii) : Z := Z.of_N (N_of_ascii c).

(** [str(n)] for an [int] *)
Definition str_of_int (n : Z) : string := NilZero.string_of_int (Z.to_int n).

(** [bytes(s, "utf-8")] *)
Definition utf8_bytes (s : string) : list Z := map code (chars s).

(** [s[-n:]] *)
Definition str_suffix (n : nat) (s : string) : string :=
  substring (String.length s - n) n s.

Definition digit_char (d : Z) : ascii := ascii_of_N (Z.to_N (48 + d)).

(** [now.strftime("%S")]: the second of the minute, zero-padded to two digits *)
Definition strftime_S (now : Z) : string :=
  let sec := (now / 1000000) mod 60 in
  String (digit_char (sec / 10)) (String (digit_char (sec mod 10)) EmptyString).

(** ** Identifier generator ([_id_generator]) *)

Definition alphabet : string := "abcdefghijkmnopqrstuvwxyzABCDEFGHJKMNOPQRSTUVWXYZ".

Fixpoint _id_generator (y : nat) : Eff.t string :=
  match y with
  | O => Eff.ret EmptyString
  | S y' =>
      c <- Eff.choice "a"%char (chars alphabet) ;;
      rest <- _id_generator y' ;;
      Eff.ret (String c rest)
  end.

(** ** Handle codec ([_b64_encrypt_id]) *)

Definition b64_table : string :=
  "ABCDEFGHIJKLMNOPQRSTUVWXYZabcdefghijklmnopqrstuvwxyz0123456789+/".

Definition b64_char (i : Z) : ascii := nth (Z.to_nat i) (chars b64_table) "="%char.

(** [base64.b64encode]: three bytes give four sextets; a tail of one or two
    bytes is padded with [=]. *)
Fixpoint b64encode (bs : list Z) : list ascii :=
  match bs with
  | [] => []
  | [a] =>
      [ b64_char (Z.shiftr a 2);
        b64_char (Z.shiftl (Z.land a 3) 4);
        "="%char; "="%char ]
  | [a; b] =>
      [ b64_char (Z.shiftr a 2);
        b64_char (Z.lor (Z.shiftl (Z.land a 3) 4) (Z.shiftr b 4));
        b64_char (Z.shiftl (Z.land b 15) 2);
        "="%char ]
  | a :: b :: c :: rest =>
      b64_char (Z.shiftr a 2)
      :: b64_char (Z.lor (Z.shiftl (Z.land a 3) 4) (Z.shiftr b 4))
      :: b64_char (Z.lor (Z.shiftl (Z.land b 15) 2) (Z.shiftr c 6))
      :: b64_char (Z.land c 63)
      :: b64encode rest
  end.

(** [.decode()] of the (ASCII) base64 output *)
Definition decode (bs : list ascii) : string := string_of_list_ascii bs.

Definition handle_text (captcha_count : Z) (salt time_now : string) : string :=
  str_of_int captcha_count +:+ "." +:+ salt +:+ "." +:+ time_now.

Definition _b64_encrypt_id (captcha_count : Z) : Eff.t string :=
  now <- Eff.utcnow ;;
  let time_now := str_suffix 5 (strftime_S now) in
  salt <- _id_generator 10 ;;
  Eff.ret (decode (b64encode (utf8_bytes (handle_text captcha_count salt time_now)))).

(** A character that may stand unescaped in a URL path segment: RFC 3986
    [pchar] without percent-encoding, that is [unreserved], [sub-delims],
    [:] and [@]. *)
Definition is_alnum (c : ascii) : bool :=
  let n := code c in
  ((48 <=? n) && (n <=? 57)) || ((65 <=? n) && (n <=? 90)) || ((97 <=? n) && (n <=? 122)).

Definition url_path_safe (c : ascii) : bool :=
  is_alnum c
  || existsb (Ascii.eqb c) (chars "-._~")
  || existsb (Ascii.eqb c) (chars "!$&'()*+,;=")
  || existsb (Ascii.eqb c) (chars ":@").

(** ** Record store *)

(** A value of [flask_app.captcha_cdn] *)
Module CdnRecord.
Record t (Image : Type) := Make {
  solution : string;
  image : option Image;
  time : Z;
  cdn_accessed_number : Z;
  max_cdn_access : Z;
  solution_id : string
}.
Arguments Make {Image}.
Arguments solution {Image}.
Arguments image {Image}.
Arguments time {Image}.
Arguments cdn_accessed_number {Image}.
Arguments max_cdn_access {Image}.
Arguments solution_id {Image}.

(** [rec["cdn_accessed_number"] += 1] *)
Definition accessed {Image} (r : t Image) : t Image :=
  Make (solution r) (image r) (time r) (cdn_accessed_number r + 1)
       (max_cdn_access r) (solution_id r).

(** [rec["image"] = img] *)
Definition set_image {Image} (img : Image) (r : t Image) : t Image :=
  Make (solution r) (Some img) (time r) (cdn_accessed_number r)
       (max_cdn_access r) (solution_id r).
End CdnRecord.

(** A value of [flask_app.captchas_solution] *)
Module SolutionRecord.
Record t := Make {
  solution : string;
  max_solution_check : Z;
  solution_checked : Z
}.

(** [rec["solution_checked"] += 1] *)
Definition checked (r : t) : t :=
  Make (solution r) (max_solution_check r) (solution_checked r + 1).
End SolutionRecord.

(** The process-wide state hung on the [flask_app] object *)
Record flask_app (Image : Type) := FlaskApp {
  captcha_cdn : gmap string (CdnRecord.t Image);
  captchas_solution : gmap string SolutionRecord.t;
  captcha_count : Z
}.
Arguments FlaskApp {Image}.
Arguments captcha_cdn {Image}.
Arguments captchas_solution {Image}.
Arguments captcha_count {Image}.

(** ** Responses *)

Inductive jval :=
| JBool (b : bool)
| JInt (n : Z)
| JStr (s : string).

Inductive response :=
| Json (status : Z) (body : gmap string jval)   (* [jsonify(body), status] *)
| File (mimetype : string) (data : list Z).     (* [send_file(output, mimetype)] *)

Definition status_of (r : response) : Z :=
  match r with
  | Json status _ => status
  | File _ _ => 200
  end.

Definition error_body (code : Z) (type text : string) : gmap string jval :=
  <["code" := JInt code]> (<["type" := JStr type]> (<["text" := JStr text]> ∅)).

(** The JSON body of [POST /api/v5/captcha] with int limits; an absent key
    is [None].  [Raw.issue_request] is the body with limits of any JSON
    type. *)
Record issue_request := IssueRequest {
  host_url : string;
  maxCdnAccess : option Z;
  maxSolutionCheck : option Z
}.

(** ** Request handlers *)

Section Handlers.

(** [PIL.Image.Image] *)
Variable Image : Type.
(** [cap_gen(text=...)], the synthesis pipeline of [app/utils] *)
Variable cap_gen : string -> Eff.t Image.
(** [pil_image.convert("RGBA").save(output, format="PNG")]: the encoded bytes *)
Variable png : Image -> list Z.
(** [str.lower] *)
Variable str_lower : string -> string.
(** [urllib.parse.urljoin] *)
Variable urljoin : string -> string -> string.

Abbreviation state := (flask_app Image).

Definition cdn_key_not_found : response :=
  Json 400 (error_body 400 "error" "cdn key not found").

Definition cdn_exhausted : response :=
  Json 418 (error_body 418 "error"
              "captcha CDN accessed too many times, now expired & deleted").

(** [GET /api/v5/cdn/<key>].  Every subscript of the two tables inside the
    [try] may raise [KeyError]; the handler then answers 400 with whatever
    it had already written left in place. *)
Definition get_img (key : string) (st : state) : Eff.t (response * state) :=
  match captcha_cdn st !! key with
  | None => Eff.ret (cdn_key_not_found, st)
  | Some rec =>
      if CdnRecord.cdn_accessed_number rec >=? CdnRecord.max_cdn_access rec then
        match captchas_solution st !! CdnRecord.solution_id rec with
        | None =>
            (* [del flask_app.captchas_solution[...]] raises before the
               image record is deleted *)
            Eff.ret (cdn_key_not_found, st)
        | Some _ =>
            Eff.ret (cdn_exhausted,
                     FlaskApp (delete key (captcha_cdn st))
                         (delete (CdnRecord.solution_id rec) (captchas_solution st))
                         (captcha_count st))
        end
      else
        let rec := CdnRecord.accessed rec in
        match CdnRecord.image rec with
        | None =>
            pil_image <- cap_gen (CdnRecord.solution rec) ;;
            Eff.ret (File "image/png" (png pil_image),
                     FlaskApp (<[key := CdnRecord.set_image pil_image rec]> (captcha_cdn st))
                         (captchas_solution st) (captcha_count st))
        | Some pil_image =>
            Eff.ret (File "image/png" (png pil_image),
                     FlaskApp (<[key := rec]> (captcha_cdn st))
                         (captchas_solution st) (captcha_count st))
        end
  end.

Definition issued_body (host cdn_id solution_id : string) : gmap string jval :=
  <["cdn_url" := JStr (urljoin host ("/api/v5/cdn/" +:+ cdn_id))]>
  (<["solution_check_url" := JStr (urljoin host ("/api/v5/check/" +:+ solution_id))]>
  (<["solution_id" := JStr solution_id]>
  (<["cdn_id" := JStr cdn_id]> ∅))).

(** [POST /api/v5/captcha] *)
Definition api_captcha (rq : issue_request) (st : state) : Eff.t (response * state) :=
  let cdn_access := default 5 (maxCdnAccess rq) in
  let solution_check := default 5 (maxSolutionCheck rq) in
  if (cdn_access >=? 20) || (cdn_access <=? 0) then
    Eff.ret (Json 400 (error_body 400 "error"
               "maxCdnAccess is over 20. default is 5 max is 20, min is 1"), st)
  else if (solution_check >=? 20) || (solution_check <=? 0) then
    Eff.ret (Json 400 (error_body 400 "error"
               "maxSolutionCheck is over 20. default is 5 max is 20, min is 1"), st)
  else
    solution_id <- _b64_encrypt_id (captcha_count st) ;;
    n <- Eff.choice 4%nat [4; 5]%nat ;;
    solution <- _id_generator n ;;
    let solutions :=
      <[solution_id := SolutionRecord.Make solution solution_check 0]>
        (captchas_solution st) in
    now <- Eff.utcnow ;;
    cdn_id <- _b64_encrypt_id (captcha_count st) ;;
    let cdn :=
      <[cdn_id := CdnRecord.Make solution None (now + 5 * 60 * 1000000) 0
                    cdn_access solution_id]>
        (captcha_cdn st) in
    Eff.ret (Json 200 (issued_body (host_url rq) cdn_id solution_id),
             FlaskApp cdn solutions (captcha_count st + 1)).

(** [POST /api/v5/check/<solution_id>] with body [{"attempt": attempt}] *)
Definition check_solution (solution_id : string) (attempt : option string)
    (st : state) : response * state :=
  match captchas_solution st !! solution_id with
  | None => (Json 400 (error_body 400 "error" "solution_id not found"), st)
  | Some rec =>
      if SolutionRecord.solution_checked rec >=? SolutionRecord.max_solution_check rec then
        (Json 418 (error_body 418 "error"
           "this route has been accessed too many times. records now expired & deleted"),
         FlaskApp (captcha_cdn st) (delete solution_id (captchas_solution st))
             (captcha_count st))
      else
        let captcha_data := SolutionRecord.checked rec in
        let st := FlaskApp (captcha_cdn st)
                      (<[solution_id := captcha_data]> (captchas_solution st))
                      (captcha_count st) in
        let data : gmap string jval :=
          <["case_sensitive_correct" := JBool false]>
          (<["case_insensitive_correct" := JBool false]> ∅) in
        match attempt with
        | Some (String _ _ as attempt) =>
            let data :=
              if String.eqb attempt (SolutionRecord.solution captcha_data)
              then <["case_sensitive_correct" := JBool true]> data else data in
            let data :=
              if String.eqb (str_lower attempt)
                   (str_lower (SolutionRecord.solution captcha_data))
              then <["case_insensitive_correct" := JBool true]> data else data in
            (Json 200 data, st)
        | _ =>
            (* [not attempt]: the key is absent, null or the empty string *)
            (Json 400 (error_body 400 "error" "attempt not found in HTTP json"), st)
        end
  end.

(** Successive requests against one handle, each with its own oracle. *)
Fixpoint retrieve_all (key : string) (os : list Eff.oracle) (st : state)
    : list response * state :=
  match os with
  | [] => ([], st)
  | o :: os' =>
      let (r, st1) := Eff.run (get_img key st) o in
      let (rs, st2) := retrieve_all key os' st1 in
      (r :: rs, st2)
  end.

Fixpoint verify_all (solution_id : string) (attempts : list (option string))
    (st : state) : list response * state :=
  match attempts with
  | [] => ([], st)
  | a :: attempts' =>
      let (r, st1) := check_solution solution_id a st in
      let (rs, st2) := verify_all solution_id attempts' st1 in
      (r :: rs, st2)
  end.

End Handlers.

Arguments get_img {Image}.
Arguments api_captcha {Image}.
Arguments check_solution {Image}.
Arguments retrieve_all {Image}.
Arguments verify_all {Image}.

(** ** Salt-and-pepper stage ([utils/noise.py]) *)

Module Noise.

Section Raster.

(** A pixel value in the image's mode *)
Variable pixel : Type.
(** What [Image.new(mode, size)] fills the canvas with *)
Variable blank : pixel.
(** What [fill=(255, 255, 255)] draws in the image's mode *)
Variable white : pixel.

Record image := Raster {
  mode : string;
  width : nat;
  height : nat;
  getpixel : nat -> nat -> pixel
}.

(** [Image.new(mode, size)] *)
Definition new (mode : string) (w h : nat) : image :=
  Raster mode w h (fun _ _ => blank).

(** [ImageDraw.Draw(im).point((x, y), fill=fill)] *)
Definition point (x y : nat) (fill : pixel) (im : image) : image :=
  Raster (mode im) (width im) (height im)
    (fun x' y' => if ((x' =? x) && (y' =? y))%nat then fill else getpixel im x' y').

(** The tuple the draw is taken from *)
Definition levels : list float :=
  [0; 0.1; 0.2; 0.3; 0.4; 0.5; 0.6; 0.7; 0.8; 0.9; 1]%float.

(** [for i in xs: acc = body(i, acc)] *)
Fixpoint for_each {A S} (xs : list A) (body : A -> S -> Eff.t S) (acc : S)
    : Eff.t S :=
  match xs with
  | [] => Eff.ret acc
  | i :: xs' => acc' <- body i acc ;; for_each xs' body acc'
  end.

Definition salt_and_pepper_pixel (img : image) (probability : float)
    (x y : nat) (output_image : image) : Eff.t image :=
  random_number <- Eff.choice 0%float levels ;;
  if PrimFloat.ltb random_number probability then
    Eff.ret (point x y white output_image)
  else
    let pixel := getpixel img x y in
    Eff.ret (point x y pixel output_image).

Definition salt_and_pepper (img : image) (probability : float) : Eff.t image :=
  let output_image := new (mode img) (width img) (height img) in
  for_each (seq 0 (width img))
    (fun x => for_each (seq 0 (height img)) (salt_and_pepper_pixel img probability x))
    output_image.

End Raster.

Arguments Raster {pixel}.
Arguments mode {pixel}.
Arguments width {pixel}.
Arguments height {pixel}.
Arguments getpixel {pixel}.
Arguments salt_and_pepper {pixel}.
Arguments salt_and_pepper_pixel {pixel}.

(** What the draw [r] makes of the pixel at [(x, y)] *)
Definition peppered {pixel} (white : pixel) (img : image pixel) (probability : float)
    (x y r : nat) : pixel :=
  if PrimFloat.ltb (nth (r mod 11) levels 0%float) probability
  then white else getpixel img x y.

(** The draws, out of the eleven equally likely ones, that whiten a pixel *)
Definition whitening_draws (probability : float) : list nat :=
  filter (fun i => Is_true (PrimFloat.ltb (nth i levels 0%float) probability)) (seq 0 11).

(** An oracle whose every draw is [r] *)
Definition constant_draw (r : nat) : Eff.oracle := Eff.Oracle (fun _ => r) (fun _ => 0).

(** A one-pixel black RGB image *)
Definition black_dot : image (Z * Z * Z) := Raster "RGB" 1 1 (fun _ _ => (0, 0, 0)).

Definition rgb_white : Z * Z * Z := (255, 255, 255).

Definition dot_after (probability : float) (r : nat) : Z * Z * Z :=
  getpixel (Eff.run (salt_and_pepper (0, 0, 0) rgb_white black_dot probability)
                    (constant_draw r)) 0%nat 0%nat.

End Noise.

(** ** Vocabulary of the statements *)

(** A byte of the text that is encoded: 7-bit, and its low sextet is not
    one of the two that base64 writes as [+] and [/]. *)
Definition plain_byte (b : Z) : bool :=
  (0 <=? b) && (b <? 128) && (Z.land b 63 <? 62).

(** What the encoder emits for such text: a letter, a digit or the pad *)
Definition b64_plain (c : ascii) : bool := is_alnum c || Ascii.eqb c "=".

Definition seven_bit : list Z := map Z.of_nat (seq 0 128).

(** The image a within-limit fetch serves: the one the record holds, or
    else a fresh rendering of its solution. *)
Definition held_or_rendered {Image} (cap_gen : string -> Eff.t Image)
    (rec : CdnRecord.t Image) (o : Eff.oracle) : Image :=
  match CdnRecord.image rec with
  | Some img => img
  | None => Eff.run (cap_gen (CdnRecord.solution rec)) o
  end.

(** An oracle that yields zero throughout *)
Definition idle : Eff.oracle := Eff.Oracle (fun _ => 0%nat) (fun _ => 0).

(** A fetch that was served: a PNG file *)
Definition served (r : response) : Prop := exists data, r = File "image/png" data.

(** Issue succeeded, answered with the two handles and left the state [st1]. *)
Definition issued {Image} (urljoin : string -> string -> string) (rq : issue_request)
    (st : flask_app Image) (o : Eff.oracle) (cdn_id solution_id : string)
    (st1 : flask_app Image) : Prop :=
  Eff.run (api_captcha urljoin rq st) o
    = (Json 200 (issued_body urljoin (host_url rq) cdn_id solution_id), st1).

(** The body of a successful Verify: two booleans and nothing else *)
Definition verdict (case_sensitive case_insensitive : bool) : gmap string jval :=
  <["case_sensitive_correct" := JBool case_sensitive]>
  (<["case_insensitive_correct" := JBool case_insensitive]> ∅).

Definition check_exhausted : response :=
  Json 418 (error_body 418 "error"
    "this route has been accessed too many times. records now expired & deleted").

(** ** A concrete instance *)

Module Demo.

(** A stand-in renderer: one random byte followed by the text *)
Definition cap_gen (text : string) : Eff.t (list Z) :=
  r <- Eff.randbelow 256 ;; Eff.ret (Z.of_nat r :: utf8_bytes text).

Definition png (img : list Z) : list Z := img.

(** [str.lower] on ASCII text *)
Definition lower_char (c : ascii) : ascii :=
  if (65 <=? code c) && (code c <=? 90) then ascii_of_N (Z.to_N (code c + 32)) else c.

Definition lower (s : string) : string := string_of_list_ascii (map lower_char (chars s)).

(** [urljoin] of a host URL ending in [/] and an absolute path *)
Definition urljoin (base path : string) : string :=
  substring 0 (String.length base - 1) base +:+ path.

Definition oracle : Eff.oracle :=
  Eff.Oracle (fun n => (7 * n + 3)%nat) (fun n => 1700000005123456 + Z.of_nat n).

Definition empty : flask_app (list Z) := FlaskApp ∅ ∅ 0.

(** [{"maxCdnAccess": 2, "maxSolutionCheck": 3}] *)
Definition request : issue_request := IssueRequest "http://localhost/" (Some 2) (Some 3).

(** [{"maxCdnAccess": 1, "maxSolutionCheck": 1}] *)
Definition single : issue_request := IssueRequest "http://localhost/" (Some 1) (Some 1).

Definition cdn_id : string := "MC5zekdQV2Rrc3pHLjI1".
Definition solution_id : string := "MC5ka3N6R1BXZGtzLjI1".

(** Issue with both limits 1, one fetch, then two checks: the second check
    exhausts the solution record while the image record, now at its limit,
    stays behind. *)
Definition orphaned : flask_app (list Z) :=
  let st1 := (Eff.run (api_captcha urljoin single empty) oracle).2 in
  let st2 := (Eff.run (get_img cap_gen png cdn_id st1) oracle).2 in
  let st3 := (check_solution lower solution_id (Some "guess") st2).2 in
  (check_solution lower solution_id (Some "guess") st3).2.

Definition orphan_record : CdnRecord.t (list Z) :=
  CdnRecord.Make "GPWdk" (Some (3 :: utf8_bytes "GPWdk")) 1700000305123457 1 1 solution_id.

(** A state with one live solution record *)
Definition checking : flask_app (list Z) :=
  FlaskApp ∅ {[ solution_id := SolutionRecord.Make "GPWdk" 3 0 ]} 1.

End Demo.

(** ** Reading a handle back *)

(** The handle built from a counter value, a salt and a time fragment *)
Definition handle_of (captcha_count : Z) (salt time_now : string) : string :=
  decode (b64encode (utf8_bytes (handle_text captcha_count salt time_now))).

(** Position of a character in the base64 table *)
Definition b64_index (c : ascii) : Z :=
  let n := code c in
  if (65 <=? n) && (n <=? 90) then n - 65
  else if (97 <=? n) && (n <=? 122) then n - 71
  else if (48 <=? n) && (n <=? 57) then n + 4
  else if n =? 43 then 62
  else 63.

(** The standard base64 decoder ([base64.b64decode]) on well-formed input:
    four characters give three bytes, [=] marks a shortened last group. *)
Fixpoint b64decode (cs : list ascii) : list Z :=
  match cs with
  | c1 :: c2 :: c3 :: c4 :: rest =>
      let b1 := Z.lor (Z.shiftl (b64_index c1) 2) (Z.shiftr (b64_index c2) 4) in
      let b2 := Z.lor (Z.shiftl (Z.land (b64_index c2) 15) 4) (Z.shiftr (b64_index c3) 2) in
      let b3 := Z.lor (Z.shiftl (Z.land (b64_index c3) 3) 6) (b64_index c4) in
      if Ascii.eqb c3 "=" then [b1]
      else if Ascii.eqb c4 "=" then [b1; b2]
      else b1 :: b2 :: b3 :: b64decode rest
  | _ => []
  end.

Definition eight_bit : list Z := map Z.of_nat (seq 0 256).

(** ** Routing *)

(** The three routes of the API, as the [@flask_app.route] decorators bind them *)
Inductive request :=
| Issue (rq : issue_request)                            (* POST /api/v5/captcha *)
| Retrieve (key : string)                               (* GET /api/v5/cdn/<key> *)
| Verify (solution_id : string) (attempt : option string). (* POST /api/v5/check/<solution_id> *)

Section Serving.

Context {Image : Type}.
Variable cap_gen : string -> Eff.t Image.
Variable png : Image -> list Z.
Variable str_lower : string -> string.
Variable urljoin : string -> string -> string.

Definition serve (rq : request) (o : Eff.oracle) (st : flask_app Image)
    : response * flask_app Image :=
  match rq with
  | Issue body => Eff.run (api_captcha urljoin body st) o
  | Retrieve key => Eff.run (get_img cap_gen png key st) o
  | Verify solution_id attempt => check_solution str_lower solution_id attempt st
  end.

(** A sequence of requests, each with its own oracle, served one after another *)
Fixpoint serve_all (rqs : list (request * Eff.oracle)) (st : flask_app Image)
    : list response * flask_app Image :=
  match rqs with
  | [] => ([], st)
  | (rq, o) :: rqs' =>
      let (r, st1) := serve rq o st in
      let (rs, st2) := serve_all rqs' st1 in
      (r :: rs, st2)
  end.

End Serving.

(** ** Vocabulary of the invariants *)

Definition solution_id_not_found : response :=
  Json 400 (error_body 400 "error" "solution_id not found").

Definition attempt_not_found : response :=
  Json 400 (error_body 400 "error" "attempt not found in HTTP json").

(** [not attempt]: the key is absent, null or the empty string *)
Definition falsy (attempt : option string) : Prop :=
  attempt = None \/ attempt = Some EmptyString.

(** A challenge solution: four or five characters of the alphabet *)
Definition solution_shape (s : string) : Prop :=
  (String.length s = 4%nat \/ String.length s = 5%nat)
  /\ Forall (fun ch => ch ∈ chars alphabet) (chars s).

Definition cdn_record_ok {Image} (rec : CdnRecord.t Image) : Prop :=
  1 <= CdnRecord.max_cdn_access rec <= 19
  /\ 0 <= CdnRecord.cdn_accessed_number rec <= CdnRecord.max_cdn_access rec
  /\ (CdnRecord.image rec = None <-> CdnRecord.cdn_accessed_number rec = 0)
  /\ solution_shape (CdnRecord.solution rec).

Definition solution_record_ok (s : SolutionRecord.t) : Prop :=
  1 <= SolutionRecord.max_solution_check s <= 19
  /\ 0 <= SolutionRecord.solution_checked s <= SolutionRecord.max_solution_check s
  /\ solution_shape (SolutionRecord.solution s).

(** [k] is a handle built from a counter value below [n]. *)
Definition issued_before (n : Z) (k : string) : Prop :=
  exists c salt t, c < n /\ k = handle_of c salt t.

(** What every state reached from empty tables satisfies *)
Definition consistent {Image} (st : flask_app Image) : Prop :=
  map_Forall (fun k rec =>
      cdn_record_ok rec
      /\ issued_before (captcha_count st) k
      /\ issued_before (captcha_count st) (CdnRecord.solution_id rec))
    (captcha_cdn st)
  /\ map_Forall (fun k s =>
      solution_record_ok s /\ issued_before (captcha_count st) k)
    (captchas_solution st)
  /\ (forall k rec s,
        captcha_cdn st !! k = Some rec ->
        captchas_solution st !! CdnRecord.solution_id rec = Some s ->
        SolutionRecord.solution s = CdnRecord.solution rec).


(** ** The arc overlay ([add_noise_lines]) *)

Section NoiseLines.

(** [ImageDraw.ImageDraw] *)
Variable canvas : Type.
(** [image.im.size] *)
Variable im_size : canvas -> nat * nat.
(** [image.arc(xy, start, end, fill=fill)]: the canvas with the arc drawn *)
Variable arc : canvas -> Z * Z * Z * Z -> Z -> Z -> string -> canvas.

(** The body of the loop: one arc from the fixed corner to a random height *)
Definition add_noise_line (size : nat * nat) (image : canvas) : Eff.t canvas :=
  let x := (-50, -50) in
  y2 <- Eff.choice 0 (map Z.of_nat (seq 0 (size.2 + 10))) ;;
  let y := (Z.of_nat size.1 + 10, y2) in
  Eff.ret (arc image (x.1, x.2, y.1, y.2) 0 360 "white").

Definition add_noise_lines (image : canvas) : Eff.t canvas :=
  let size := im_size image in
  n <- Eff.randbelow 3 ;;
  Noise.for_each (seq 0 n) (fun _ => add_noise_line size) image.

End NoiseLines.

Arguments add_noise_line {canvas}.
Arguments add_noise_lines {canvas}.

(** ** More of the concrete instance *)

(** Issue, two fetches, a check with the right answer in the wrong case, a
    check without an attempt, a fetch over the limit *)
Definition demo_session : list (request * Eff.oracle) :=
  [ (Issue Demo.request, Demo.oracle);
    (Retrieve Demo.cdn_id, Demo.oracle);
    (Retrieve Demo.cdn_id, idle);
    (Verify Demo.solution_id (Some "gpwDK"), idle);
    (Verify Demo.solution_id None, idle) ].

Definition demo_state : flask_app (list Z) :=
  (serve_all Demo.cap_gen Demo.png Demo.lower Demo.urljoin demo_session Demo.empty).2.

Definition demo_cdn_record : CdnRecord.t (list Z) :=
  CdnRecord.Make "GPWdk" (Some (3 :: utf8_bytes "GPWdk")) 1700000305123457 2 2
    Demo.solution_id.

Definition demo_solution_record : SolutionRecord.t := SolutionRecord.Make "GPWdk" 3 2.

(** The state right after an Issue with both limits 1 *)
Definition demo_single : flask_app (list Z) :=
  (Eff.run (api_captcha Demo.urljoin Demo.single Demo.empty) Demo.oracle).2.

(** The same after two checks: the solution record is exhausted and gone,
    the image record has not been fetched yet. *)
Definition demo_unverifiable : flask_app (list Z) :=
  (verify_all Demo.lower Demo.solution_id [Some "guess"; Some "guess"] demo_single).2.

Definition demo_fresh_record : CdnRecord.t (list Z) :=
  CdnRecord.Make "GPWdk" None 1700000305123457 0 1 Demo.solution_id.

(** ** The handlers over raw JSON limits

    [api_captcha] compares whatever value the JSON body holds under
    [maxCdnAccess] and [maxSolutionCheck] and stores it as the limit, so a
    limit need not be an int.  This module is the same three handlers with
    the limits as Python holds them after [json.loads]; on int limits they
    are the handlers above (see the refinement lemmas). *)

Module Raw.

(** A JSON number after [json.loads]: an [int], or a [float] given by its
    exact value (Python compares an int with a float exactly). *)
Inductive number :=
| Int (n : Z)
| Float (q : Q)               (* a finite float *)
| Infinity (negative : bool)  (* [Infinity], [-Infinity] *)
| NaN.

(** A JSON value *)
Inductive value :=
| Num (x : number)
| Bool (b : bool)
| Null
| Str (s : string)
| Compound.                   (* an array or an object *)

(** [x >= n] and [x <= n] for an int [n]; a comparison with NaN is false *)
Definition ge (x : number) (n : Z) : bool :=
  match x with
  | Int m => m >=? n
  | Float q => Qle_bool (inject_Z n) q
  | Infinity negative => negb negative
  | NaN => false
  end.

Definition le (x : number) (n : Z) : bool :=
  match x with
  | Int m => m <=? n
  | Float q => Qle_bool q (inject_Z n)
  | Infinity negative => negative
  | NaN => false
  end.

(** The values [>=] and [<=] accept against an int: numbers, and booleans,
    which are the ints 1 and 0.  On anything else they raise [TypeError]. *)
Definition numeric (v : value) : option number :=
  match v with
  | Num x => Some x
  | Bool b => Some (Int (Z.b2z b))
  | Null | Str _ | Compound => None
  end.

Module CdnRecord.
Record t (Image : Type) := Make {
  solution : string;
  image : option Image;
  time : Z;
  cdn_accessed_number : Z;
  max_cdn_access : number;
  solution_id : string
}.
Arguments Make {Image}.
Arguments solution {Image}.
Arguments image {Image}.
Arguments time {Image}.
Arguments cdn_accessed_number {Image}.
Arguments max_cdn_access {Image}.
Arguments solution_id {Image}.

Definition accessed {Image} (r : t Image) : t Image :=
  Make (solution r) (image r) (time r) (cdn_accessed_number r + 1)
       (max_cdn_access r) (solution_id r).

Definition set_image {Image} (img : Image) (r : t Image) : t Image :=
  Make (solution r) (Some img) (time r) (cdn_accessed_number r)
       (max_cdn_access r) (solution_id r).
End CdnRecord.

Module SolutionRecord.
Record t := Make {
  solution : string;
  max_solution_check : number;
  solution_checked : Z
}.

Definition checked (r : t) : t :=
  Make (solution r) (max_solution_check r) (solution_checked r + 1).
End SolutionRecord.

Record flask_app (Image : Type) := FlaskApp {
  captcha_cdn : gmap string (CdnRecord.t Image);
  captchas_solution : gmap string SolutionRecord.t;
  captcha_count : Z
}.
Arguments FlaskApp {Image}.
Arguments captcha_cdn {Image}.
Arguments captchas_solution {Image}.
Arguments captcha_count {Image}.

(** The JSON body of [POST /api/v5/captcha]: an object, or nothing
    ([get_json(silent=True) or {}]); an absent key is [None].  A body that
    is a non-empty array, a non-empty string or a non-zero number has no
    [get] and is not covered. *)
Record issue_request := IssueRequest {
  host_url : string;
  maxCdnAccess : option value;
  maxSolutionCheck : option value
}.

(** What the handler gives back: a response, or an uncaught [TypeError] *)
Inductive reply :=
| Answer (r : response)
| TypeError.

Section Handlers.

Variable Image : Type.
Variable cap_gen : string -> Eff.t Image.
Variable png : Image -> list Z.
Variable str_lower : string -> string.
Variable urljoin : string -> string -> string.

Abbreviation state := (flask_app Image).

(** [GET /api/v5/cdn/<key>] *)
Definition get_img (key : string) (st : state) : Eff.t (response * state) :=
  match captcha_cdn st !! key with
  | None => Eff.ret (cdn_key_not_found, st)
  | Some rec =>
      (* [cdn_accessed_number >= max_cdn_access] *)
      if le (CdnRecord.max_cdn_access rec) (CdnRecord.cdn_accessed_number rec) then
        match captchas_solution st !! CdnRecord.solution_id rec with
        | None => Eff.ret (cdn_key_not_found, st)
        | Some _ =>
            Eff.ret (cdn_exhausted,
                     FlaskApp (delete key (captcha_cdn st))
                              (delete (CdnRecord.solution_id rec) (captchas_solution st))
                              (captcha_count st))
        end
      else
        let rec := CdnRecord.accessed rec in
        match CdnRecord.image rec with
        | None =>
            pil_image <- cap_gen (CdnRecord.solution rec) ;;
            Eff.ret (File "image/png" (png pil_image),
                     FlaskApp (<[key := CdnRecord.set_image pil_image rec]> (captcha_cdn st))
                              (captchas_solution st) (captcha_count st))
        | Some pil_image =>
            Eff.ret (File "image/png" (png pil_image),
                     FlaskApp (<[key := rec]> (captcha_cdn st))
                              (captchas_solution st) (captcha_count st))
        end
  end.

(** [POST /api/v5/captcha] *)
Definition api_captcha (rq : issue_request) (st : state) : Eff.t (reply * state) :=
  let cdn_access := default (Num (Int 5)) (maxCdnAccess rq) in
  let solution_check := default (Num (Int 5)) (maxSolutionCheck rq) in
  match numeric cdn_access with
  | None => Eff.ret (TypeError, st)
  | Some cdn_access =>
      if ge cdn_access 20 || le cdn_access 0 then
        Eff.ret (Answer (Json 400 (error_body 400 "error"
                   "maxCdnAccess is over 20. default is 5 max is 20, min is 1")), st)
      else
        match numeric solution_check with
        | None => Eff.ret (TypeError, st)
        | Some solution_check =>
            if ge solution_check 20 || le solution_check 0 then
              Eff.ret (Answer (Json 400 (error_body 400 "error"
                         "maxSolutionCheck is over 20. default is 5 max is 20, min is 1")), st)
            else
              solution_id <- _b64_encrypt_id (captcha_count st) ;;
              n <- Eff.choice 4%nat [4; 5]%nat ;;
              solution <- _id_generator n ;;
              let solutions :=
                <[solution_id := SolutionRecord.Make solution solution_check 0]>
                  (captchas_solution st) in
              now <- Eff.utcnow ;;
              cdn_id <- _b64_encrypt_id (captcha_count st) ;;
              let cdn :=
                <[cdn_id := CdnRecord.Make solution None (now + 5 * 60 * 1000000) 0
                              cdn_access solution_id]>
                  (captcha_cdn st) in
              Eff.ret (Answer (Json 200 (issued_body urljoin (host_url rq) cdn_id solution_id)),
                       FlaskApp cdn solutions (captcha_count st + 1))
        end
  end.

(** [POST /api/v5/check/<solution_id>] with body [{"attempt": attempt}] *)
Definition check_solution (solution_id : string) (attempt : option string)
    (st : state) : response * state :=
  match captchas_solution st !! solution_id with
  | None => (Json 400 (error_body 400 "error" "solution_id not found"), st)
  | Some rec =>
      (* [solution_checked >= max_solution_check] *)
      if le (SolutionRecord.max_solution_check rec) (SolutionRecord.solution_checked rec) then
        (Json 418 (error_body 418 "error"
           "this route has been accessed too many times. records now expired & deleted"),
         FlaskApp (captcha_cdn st) (delete solution_id (captchas_solution st))
                  (captcha_count st))
      else
        let captcha_data := SolutionRecord.checked rec in
        let st := FlaskApp (captcha_cdn st)
                           (<[solution_id := captcha_data]> (captchas_solution st))
                           (captcha_count st) in
        let data : gmap string jval :=
          <["case_sensitive_correct" := JBool false]>
          (<["case_insensitive_correct" := JBool false]> ∅) in
        match attempt with
        | Some (String _ _ as attempt) =>
            let data :=
              if String.eqb attempt (SolutionRecord.solution captcha_data)
              then <["case_sensitive_correct" := JBool true]> data else data in
            let data :=
              if String.eqb (str_lower attempt)
                   (str_lower (SolutionRecord.solution captcha_data))
              then <["case_insensitive_correct" := JBool true]> data else data in
            (Json 200 data, st)
        | _ =>
            (Json 400 (error_body 400 "error" "attempt not found in HTTP json"), st)
        end
  end.

End Handlers.

Arguments get_img {Image}.
Arguments api_captcha {Image}.
Arguments check_solution {Image}.

(** The three routes *)
Inductive request :=
| Issue (rq : issue_request)
| Retrieve (key : string)
| Verify (solution_id : string) (attempt : option string).

Section Serving.

Context {Image : Type}.
Variable cap_gen : string -> Eff.t Image.
Variable png : Image -> list Z.
Variable str_lower : string -> string.
Variable urljoin : string -> string -> string.

Definition serve (rq : request) (o : Eff.oracle) (st : flask_app Image)
    : reply * flask_app Image :=
  match rq with
  | Issue body => Eff.run (api_captcha urljoin body st) o
  | Retrieve key =>
      let (r, st') := Eff.run (get_img cap_gen png key st) o in (Answer r, st')
  | Verify solution_id attempt =>
      let (r, st') := check_solution str_lower solution_id attempt st in (Answer r, st')
  end.

Fixpoint serve_all (rqs : list (request * Eff.oracle)) (st : flask_app Image)
    : list reply * flask_app Image :=
  match rqs with
  | [] => ([], st)
  | (rq, o) :: rqs' =>
      let (r, st1) := serve rq o st in
      let (rs, st2) := serve_all rqs' st1 in
      (r :: rs, st2)
  end.

(** Successive fetches of one handle *)
Fixpoint retrieve_all (key : string) (os : list Eff.oracle) (st : flask_app Image)
    : list response * flask_app Image :=
  match os with
  | [] => ([], st)
  | o :: os' =>
      let (r, st1) := Eff.run (get_img cap_gen png key st) o in
      let (rs, st2) := retrieve_all key os' st1 in
      (r :: rs, st2)
  end.

End Serving.

(** *** Vocabulary of the statements *)


(** [x >= 20 or x <= 0] *)
Definition out_of_range (x : number) : Prop :=
  match x with
  | Int n => 20 <= n \/ n <= 0
  | Float q => (20 <= q \/ q <= 0)%Q
  | Infinity _ => True
  | NaN => False
  end.

(** What a stored limit and its counter satisfy: an int limit is in
    [1, 19] and bounds the counter; a finite float limit is strictly
    between 0 and 20 and the counter stays below it plus one; a NaN limit
    bounds nothing. *)
Definition limit_ok (limit : number) (count : Z) : Prop :=
  match limit with
  | Int m => 1 <= m <= 19 /\ count <= m
  | Float q => (0 < q /\ q < 20 /\ inject_Z count < q + 1)%Q
  | Infinity _ => False
  | NaN => True
  end.

Definition cdn_record_ok {Image} (rec : CdnRecord.t Image) : Prop :=
  0 <= CdnRecord.cdn_accessed_number rec
  /\ limit_ok (CdnRecord.max_cdn_access rec) (CdnRecord.cdn_accessed_number rec)
  /\ (CdnRecord.image rec = None <-> CdnRecord.cdn_accessed_number rec = 0)
  /\ solution_shape (CdnRecord.solution rec).

Definition solution_record_ok (s : SolutionRecord.t) : Prop :=
  0 <= SolutionRecord.solution_checked s
  /\ limit_ok (SolutionRecord.max_solution_check s) (SolutionRecord.solution_checked s)
  /\ solution_shape (SolutionRecord.solution s).

Definition records_ok {Image} (st : flask_app Image) : Prop :=
  map_Forall (fun _ rec => cdn_record_ok rec) (captcha_cdn st)
  /\ map_Forall (fun _ s => solution_record_ok s) (captchas_solution st).

(** [{"maxCdnAccess": 19.5}] *)
Definition fraction_request : issue_request :=
  IssueRequest "http://localhost/" (Some (Num (Float (39 # 2)))) None.

(** [{"maxCdnAccess": NaN}] *)
Definition nan_request : issue_request :=
  IssueRequest "http://localhost/" (Some (Num NaN)) None.

Definition empty : flask_app (list Z) := FlaskApp ∅ ∅ 0.

(** Issue with [maxCdnAccess = 19.5] on the empty state *)
Definition fraction_issue : reply * flask_app (list Z) :=
  Eff.run (api_captcha Demo.urljoin fraction_request empty) Demo.oracle.

End Raw.

(** ** The int-limit handlers inside the raw ones *)

Definition raw_cdn_record {Image} (r : CdnRecord.t Image) : Raw.CdnRecord.t Image :=
  Raw.CdnRecord.Make (CdnRecord.solution r) (CdnRecord.image r) (CdnRecord.time r)
    (CdnRecord.cdn_accessed_number r) (Raw.Int (CdnRecord.max_cdn_access r))
    (CdnRecord.solution_id r).

Definition raw_solution_record (r : SolutionRecord.t) : Raw.SolutionRecord.t :=
  Raw.SolutionRecord.Make (SolutionRecord.solution r)
    (Raw.Int (SolutionRecord.max_solution_check r)) (SolutionRecord.solution_checked r).

Definition raw_app {Image} (st : flask_app Image) : Raw.flask_app Image :=
  Raw.FlaskApp (raw_cdn_record <$> captcha_cdn st)
               (raw_solution_record <$> captchas_solution st)
               (captcha_count st).

Definition raw_issue_request (rq : issue_request) : Raw.issue_request :=
  Raw.IssueRequest (host_url rq)
    ((fun n => Raw.Num (Raw.Int n)) <$> maxCdnAccess rq)
    ((fun n => Raw.Num (Raw.Int n)) <$> maxSolutionCheck rq).

Definition raw_request (rq : request) : Raw.request :=
  match rq with
  | Issue body => Raw.Issue (raw_issue_request body)
  | Retrieve key => Raw.Retrieve key
  | Verify solution_id attempt => Raw.Verify solution_id attempt
  end.

(** * Properties *)

(** ** The effect monad *)

Lemma choice_in {A} (d : A) (seq : list A) o c :
  seq <> [] -> fst (Eff.choice d seq o c) ∈ seq.
Proof.
  intros Hne. unfold Eff.choice, Eff.bind, Eff.randbelow, Eff.ret. simpl.
  apply list_elem_of_In, nth_In.
  apply Nat.mod_upper_bound. destruct seq; [done | simpl; lia].
Qed.

(** ** Identifier generator *)

Lemma chars_app s1 s2 : chars (s1 +:+ s2) = chars s1 ++ chars s2.
Proof. induction s1 as [| a s1 IH]; simpl; [done | by rewrite <- IH]. Qed.

Lemma chars_length s : length (chars s) = String.length s.
Proof. induction s; simpl; congruence. Qed.

Lemma id_generator_length y o c : String.length (fst (_id_generator y o c)) = y.
Proof.
  revert c. induction y as [| y IH]; intros c; [done |].
  cbn [_id_generator]. unfold Eff.bind at 1.
  destruct (Eff.choice _ _ o c) as [ch c1]. unfold Eff.bind.
  specialize (IH c1). destruct (_id_generator y o c1) as [rest c2].
  simpl in *. by rewrite IH.
Qed.

Lemma id_generator_chars y o c :
  Forall (fun ch => ch ∈ chars alphabet) (chars (fst (_id_generator y o c))).
Proof.
  revert c. induction y as [| y IH]; intros c; [by constructor |].
  cbn [_id_generator]. unfold Eff.bind at 1.
  pose proof (choice_in "a"%char (chars alphabet) o c) as Hin.
  destruct (Eff.choice _ _ o c) as [ch c1]. unfold Eff.bind.
  specialize (IH c1). destruct (_id_generator y o c1) as [rest c2].
  simpl in *. constructor; [by apply Hin | done].
Qed.

(** The alphabet, letter by letter *)
Lemma alphabet_letters ch :
  ch ∈ chars alphabet
  <-> (97 <= code ch <= 122 /\ ch <> "l"%char)
      \/ (65 <= code ch <= 90 /\ ch <> "I"%char /\ ch <> "L"%char).
Proof.
  destruct ch as [b0 b1 b2 b3 b4 b5 b6 b7].
  destruct b0, b1, b2, b3, b4, b5, b6, b7; apply (bool_decide_unpack _); by vm_compute.
Qed.

(** C6, as the code has it.  The alphabet has 49 characters, no two alike:
    a character belongs to it exactly when it is one of the 25 lower-case
    letters other than [l] or one of the 24 upper-case letters other than
    [I] and [L].  So it contains none of [l], [1], [I], [0] (no digit at
    all) and keeps the letters [o] and [O].  [_id_generator y] returns a
    string of exactly [y] characters, each taken from the alphabet,
    whatever the entropy source yields. *)
Theorem id_generator_alphabet :
  String.length alphabet = 49%nat
  /\ NoDup (chars alphabet)
  /\ (forall ch,
        ch ∈ chars alphabet
        <-> (97 <= code ch <= 122 /\ ch <> "l"%char)
            \/ (65 <= code ch <= 90 /\ ch <> "I"%char /\ ch <> "L"%char))
  /\ Forall (fun ch => ch ∈ chars alphabet) (chars "oO")
  /\ Forall (fun ch => ch ∉ chars alphabet) (chars "l1I0")
  /\ Forall (fun ch => ch ∉ chars "0123456789") (chars alphabet)
  /\ forall y o c,
       String.length (fst (_id_generator y o c)) = y
       /\ Forall (fun ch => ch ∈ chars alphabet) (chars (fst (_id_generator y o c))).
Proof.
  split; [reflexivity |].
  split; [apply (bool_decide_unpack _); by vm_compute |].
  split; [exact alphabet_letters |].
  split; [apply (bool_decide_unpack _); by vm_compute |].
  split; [apply (bool_decide_unpack _); by vm_compute |].
  split; [apply (bool_decide_unpack _); by vm_compute |].
  intros y o c. split; [apply id_generator_length | apply id_generator_chars].
Qed.

(** C6 as stated fails on the literal of [_id_generator]: the alphabet does
    not have 50 characters. *)
Lemma alphabet_not_50 : String.length alphabet <> 50%nat.
Proof. discriminate. Qed.

(** ** Handle codec *)

Lemma seven_bit_complete b : 0 <= b < 128 -> In b seven_bit.
Proof.
  intros Hb. unfold seven_bit. apply in_map_iff. exists (Z.to_nat b).
  split; [lia | apply in_seq; lia].
Qed.

Lemma plain_byte_range b : plain_byte b = true -> 0 <= b < 128 /\ Z.land b 63 < 62.
Proof. unfold plain_byte. intros H. repeat (apply andb_prop in H as [H ?]). lia. Qed.

Lemma b64_char_low i : 0 <= i < 62 -> b64_plain (b64_char i) = true.
Proof.
  intros Hi.
  assert (Hall : forallb (fun n => b64_plain (b64_char (Z.of_nat n))) (seq 0 62) = true)
    by (vm_compute; reflexivity).
  rewrite forallb_forall in Hall.
  specialize (Hall (Z.to_nat i)). rewrite Z2Nat.id in Hall by lia.
  apply Hall, in_seq. lia.
Qed.

Lemma sextet_first a : 0 <= a < 128 -> 0 <= Z.shiftr a 2 < 62.
Proof.
  intros Ha. rewrite Z.shiftr_div_pow2 by lia. change (2 ^ 2) with 4.
  split; [apply Z.div_pos; lia | apply Z.div_lt_upper_bound; lia].
Qed.

Lemma sextet_pairs :
  forallb (fun a => forallb (fun b =>
      let s2 := Z.lor (Z.shiftl (Z.land a 3) 4) (Z.shiftr b 4) in
      let s3 := Z.lor (Z.shiftl (Z.land a 15) 2) (Z.shiftr b 6) in
      let t2 := Z.shiftl (Z.land a 3) 4 in
      let t3 := Z.shiftl (Z.land a 15) 2 in
      (0 <=? s2) && (s2 <? 62) && (0 <=? s3) && (s3 <? 62)
      && (0 <=? t2) && (t2 <? 62) && (0 <=? t3) && (t3 <? 62)) seven_bit) seven_bit = true.
Proof. vm_compute. reflexivity. Qed.

Lemma sextet_bounds a b :
  0 <= a < 128 -> 0 <= b < 128 ->
  0 <= Z.lor (Z.shiftl (Z.land a 3) 4) (Z.shiftr b 4) < 62
  /\ 0 <= Z.lor (Z.shiftl (Z.land a 15) 2) (Z.shiftr b 6) < 62
  /\ 0 <= Z.shiftl (Z.land a 3) 4 < 62
  /\ 0 <= Z.shiftl (Z.land a 15) 2 < 62.
Proof.
  intros Ha Hb. pose proof sextet_pairs as H.
  rewrite forallb_forall in H. specialize (H a (seven_bit_complete a Ha)).
  rewrite forallb_forall in H. specialize (H b (seven_bit_complete b Hb)).
  cbv zeta in H. repeat (apply andb_prop in H as [H ?]). lia.
Qed.

Lemma sextet_last c : plain_byte c = true -> 0 <= Z.land c 63 < 62.
Proof.
  intros H. apply plain_byte_range in H as [Hc Hlt].
  split; [apply Z.land_nonneg; lia | done].
Qed.

(** Induction over a byte string three bytes at a time, as the encoder reads it *)
Lemma triples_ind (P : list Z -> Prop) :
  P [] -> (forall a, P [a]) -> (forall a b, P [a; b]) ->
  (forall a b c rest, P rest -> P (a :: b :: c :: rest)) ->
  forall bs, P bs.
Proof.
  intros H0 H1 H2 H3.
  assert (H : forall bs, P bs /\ (forall a, P (a :: bs)) /\ (forall a b, P (a :: b :: bs))).
  { induction bs as [| c bs (IH0 & IH1 & IH2)]; [by auto |].
    split; [apply IH1 |]. split; [intros; apply IH2 |]. intros a b. by apply H3. }
  intros bs. apply H.
Qed.

Lemma b64encode_plain bs :
  Forall (fun b => plain_byte b = true) bs ->
  Forall (fun ch => b64_plain ch = true) (b64encode bs).
Proof.
  induction bs as [| a | a b | a b c rest IH] using triples_ind; intros Hbs.
  - constructor.
  - apply Forall_cons in Hbs as [Ha%plain_byte_range _].
    destruct (sextet_bounds a a) as (_ & _ & Ht & _); [lia.. |].
    cbn [b64encode]. repeat constructor; try (apply b64_char_low); try done.
    apply sextet_first; lia.
  - apply Forall_cons in Hbs as [Ha%plain_byte_range Hbs].
    apply Forall_cons in Hbs as [Hb%plain_byte_range _].
    destruct (sextet_bounds a b) as (Hs & _ & _ & _); [lia.. |].
    destruct (sextet_bounds b b) as (_ & _ & _ & Ht); [lia.. |].
    cbn [b64encode]. repeat constructor; try (apply b64_char_low); try done.
    apply sextet_first; lia.
  - apply Forall_cons in Hbs as [Ha%plain_byte_range Hbs].
    apply Forall_cons in Hbs as [Hb%plain_byte_range Hbs].
    apply Forall_cons in Hbs as [Hc Hbs].
    pose proof (sextet_last c Hc) as Hl. apply plain_byte_range in Hc.
    destruct (sextet_bounds a b) as (Hs2 & _ & _ & _); [lia.. |].
    destruct (sextet_bounds b c) as (_ & Hs3 & _ & _); [lia.. |].
    cbn [b64encode]. repeat (apply Forall_cons; split); try (apply b64_char_low); try done.
    + apply sextet_first; lia.
    + by apply IH.
Qed.

Lemma b64_plain_safe ch : b64_plain ch = true -> url_path_safe ch = true.
Proof.
  unfold b64_plain, url_path_safe. intros [H | H]%orb_prop.
  - by rewrite H.
  - apply Ascii.eqb_eq in H as ->. reflexivity.
Qed.

Lemma digit_char_plain d : 0 <= d <= 9 -> plain_byte (code (digit_char d)) = true.
Proof.
  intros Hd.
  assert (Hall : forallb (fun n => plain_byte (code (digit_char (Z.of_nat n)))) (seq 0 10) = true)
    by (vm_compute; reflexivity).
  rewrite forallb_forall in Hall.
  specialize (Hall (Z.to_nat d)). rewrite Z2Nat.id in Hall by lia.
  apply Hall, in_seq. lia.
Qed.

Lemma uint_plain (u : Decimal.uint) :
  Forall (fun b => plain_byte b = true) (utf8_bytes (NilEmpty.string_of_uint u)).
Proof.
  induction u; cbn [NilEmpty.string_of_uint]; try (constructor; [reflexivity | done]).
  constructor.
Qed.

Lemma str_of_int_plain n :
  Forall (fun b => plain_byte b = true) (utf8_bytes (str_of_int n)).
Proof.
  unfold str_of_int, NilZero.string_of_int.
  assert (Hu : forall u, Forall (fun b => plain_byte b = true)
                           (utf8_bytes (NilZero.string_of_uint u))).
  { intros u. unfold NilZero.string_of_uint.
    destruct u; try apply uint_plain. by repeat constructor. }
  destruct (Z.to_int n) as [u | u]; [apply Hu |].
  constructor; [reflexivity | apply Hu].
Qed.

Lemma alphabet_plain s :
  Forall (fun ch => ch ∈ chars alphabet) (chars s) ->
  Forall (fun b => plain_byte b = true) (utf8_bytes s).
Proof.
  intros Hs. unfold utf8_bytes. apply Forall_map.
  eapply Forall_impl; [exact Hs |]. intros ch Hch. simpl.
  assert (Hall : Forall (fun ch => plain_byte (code ch) = true) (chars alphabet))
    by (apply (bool_decide_unpack _); by vm_compute).
  rewrite Forall_forall in Hall. by apply Hall.
Qed.

Lemma time_now_plain now :
  Forall (fun b => plain_byte b = true) (utf8_bytes (str_suffix 5 (strftime_S now))).
Proof.
  unfold strftime_S. set (sec := (now / 1000000) mod 60).
  assert (0 <= sec < 60) by (apply Z.mod_pos_bound; lia).
  cbn. repeat constructor; apply digit_char_plain.
  - split; [apply Z.div_pos; lia | apply Z.lt_succ_r, Z.div_lt_upper_bound; lia].
  - pose proof (Z.mod_pos_bound sec 10). lia.
Qed.

Lemma utf8_bytes_app s1 s2 : utf8_bytes (s1 +:+ s2) = utf8_bytes s1 ++ utf8_bytes s2.
Proof. unfold utf8_bytes. by rewrite chars_app, map_app. Qed.

Lemma handle_text_plain n salt now :
  Forall (fun ch => ch ∈ chars alphabet) (chars salt) ->
  Forall (fun b => plain_byte b = true)
         (utf8_bytes (handle_text n salt (str_suffix 5 (strftime_S now)))).
Proof.
  intros Hsalt. unfold handle_text. rewrite !utf8_bytes_app.
  repeat apply Forall_app_2.
  - apply str_of_int_plain.
  - by repeat constructor.
  - by apply alphabet_plain.
  - by repeat constructor.
  - apply time_now_plain.
Qed.

Lemma chars_decode l : chars (decode l) = l.
Proof. apply list_ascii_of_string_of_list_ascii. Qed.

(** C7.  Whatever the issue counter, the ten random characters and the
    clock reading, every character of the handle that [_b64_encrypt_id]
    returns is a letter, a digit or [=], hence one that may stand unescaped
    in a URL path segment. *)
Theorem b64_encrypt_id_url_safe (captcha_count : Z) (o : Eff.oracle) (c : Eff.cursor) :
  Forall (fun ch => b64_plain ch = true /\ url_path_safe ch = true)
         (chars (fst (_b64_encrypt_id captcha_count o c))).
Proof.
  unfold _b64_encrypt_id, Eff.bind, Eff.utcnow.
  pose proof (id_generator_chars 10 o (Eff.Cursor (Eff.drawn c) (S (Eff.ticked c)))) as Hsalt.
  destruct (_id_generator 10 o _) as [salt c1]. cbn [fst Eff.ret] in *.
  rewrite chars_decode.
  eapply Forall_impl.
  - apply b64encode_plain, handle_text_plain, Hsalt.
  - intros ch Hch. split; [done | by apply b64_plain_safe].
Qed.

(** ** Retrieve *)

Section Lifecycle.

Context {Image : Type}.
Variable cap_gen : string -> Eff.t Image.
Variable png : Image -> list Z.
Variable str_lower : string -> string.
Variable urljoin : string -> string -> string.

Implicit Types (st : flask_app Image) (rec : CdnRecord.t Image) (o : Eff.oracle).

(** One fetch below the limit: the counter goes up by one, the image is
    rendered if the record holds none, and the held image is served. *)
Lemma get_img_below key st rec o :
  captcha_cdn st !! key = Some rec ->
  CdnRecord.cdn_accessed_number rec < CdnRecord.max_cdn_access rec ->
  Eff.run (get_img cap_gen png key st) o =
    (File "image/png" (png (held_or_rendered cap_gen rec o)),
     FlaskApp (<[key := CdnRecord.set_image (held_or_rendered cap_gen rec o)
                      (CdnRecord.accessed rec)]> (captcha_cdn st))
         (captchas_solution st) (captcha_count st)).
Proof.
  intros Hrec Hlt. unfold held_or_rendered, Eff.run, get_img. rewrite Hrec.
  destruct (Z.geb_spec (CdnRecord.cdn_accessed_number rec) (CdnRecord.max_cdn_access rec));
    [lia |].
  destruct rec as [sol [img |] t n m sid]; cbn.
  - reflexivity.
  - unfold Eff.bind. by destruct (cap_gen sol o Eff.start).
Qed.

(** One fetch at or over the limit, the paired solution record present *)
Lemma get_img_over key st rec srec o :
  captcha_cdn st !! key = Some rec ->
  CdnRecord.max_cdn_access rec <= CdnRecord.cdn_accessed_number rec ->
  captchas_solution st !! CdnRecord.solution_id rec = Some srec ->
  Eff.run (get_img cap_gen png key st) o =
    (cdn_exhausted,
     FlaskApp (delete key (captcha_cdn st))
         (delete (CdnRecord.solution_id rec) (captchas_solution st))
         (captcha_count st)).
Proof.
  intros Hrec Hge Hsol. unfold Eff.run, get_img. rewrite Hrec.
  destruct (Z.geb_spec (CdnRecord.cdn_accessed_number rec) (CdnRecord.max_cdn_access rec));
    [| lia].
  by rewrite Hsol.
Qed.

(** One fetch at or over the limit, the paired solution record gone *)
Lemma get_img_orphan key st rec o :
  captcha_cdn st !! key = Some rec ->
  CdnRecord.max_cdn_access rec <= CdnRecord.cdn_accessed_number rec ->
  captchas_solution st !! CdnRecord.solution_id rec = None ->
  Eff.run (get_img cap_gen png key st) o = (cdn_key_not_found, st).
Proof.
  intros Hrec Hge Hsol. unfold Eff.run, get_img. rewrite Hrec.
  destruct (Z.geb_spec (CdnRecord.cdn_accessed_number rec) (CdnRecord.max_cdn_access rec));
    [| lia].
  by rewrite Hsol.
Qed.

Lemma get_img_missing key st o :
  captcha_cdn st !! key = None ->
  Eff.run (get_img cap_gen png key st) o = (cdn_key_not_found, st).
Proof. intros Hrec. unfold Eff.run, get_img. by rewrite Hrec. Qed.

Lemma retrieve_all_app key os1 os2 st :
  retrieve_all cap_gen png key (os1 ++ os2) st =
    let (rs1, st1) := retrieve_all cap_gen png key os1 st in
    let (rs2, st2) := retrieve_all cap_gen png key os2 st1 in
    (rs1 ++ rs2, st2).
Proof.
  revert st. induction os1 as [| o os1 IH]; intros st; cbn [retrieve_all List.app].
  - by destruct (retrieve_all cap_gen png key os2 st).
  - destruct (Eff.run (get_img cap_gen png key st) o) as [r st1]. rewrite IH.
    destruct (retrieve_all cap_gen png key os1 st1) as [rs1 st2].
    by destruct (retrieve_all cap_gen png key os2 st2).
Qed.

(** Fetches on a handle whose record is gone all answer 400 and change nothing. *)
Lemma retrieve_all_missing key os st :
  captcha_cdn st !! key = None ->
  retrieve_all cap_gen png key os st = (replicate (length os) cdn_key_not_found, st).
Proof.
  intros Hrec. induction os as [| o os IH]; [done |].
  cbn [retrieve_all]. rewrite get_img_missing by done. by rewrite IH.
Qed.

(** A run of fetches that stays within the limit: all are served the same
    image, the one held by the record or else rendered by the first fetch. *)
Lemma retrieve_all_below key os st rec :
  captcha_cdn st !! key = Some rec ->
  CdnRecord.cdn_accessed_number rec + Z.of_nat (length os) <= CdnRecord.max_cdn_access rec ->
  let img := held_or_rendered cap_gen rec (hd idle os) in
  exists st',
    retrieve_all cap_gen png key os st
      = (replicate (length os) (File "image/png" (png img)), st')
    /\ captchas_solution st' = captchas_solution st
    /\ captcha_count st' = captcha_count st
    /\ captcha_cdn st' !! key =
         Some (CdnRecord.Make (CdnRecord.solution rec)
                 (match os with [] => CdnRecord.image rec | _ => Some img end)
                 (CdnRecord.time rec)
                 (CdnRecord.cdn_accessed_number rec + Z.of_nat (length os))
                 (CdnRecord.max_cdn_access rec) (CdnRecord.solution_id rec)).
Proof.
  revert st rec. induction os as [| o os IH]; intros st rec Hrec Hle img.
  - exists st. cbn. rewrite Hrec, Z.add_0_r. by destruct rec.
  - cbn [length] in Hle. cbn [retrieve_all].
    rewrite (get_img_below key st rec o Hrec) by lia. cbn [hd] in img. fold img.
    set (rec1 := CdnRecord.set_image img (CdnRecord.accessed rec)).
    set (st1 := FlaskApp _ _ _).
    destruct (IH st1 rec1) as (st' & Hrun & Hsol & Hcnt & Hcdn).
    { subst st1. cbn. apply lookup_insert_eq. }
    { subst rec1. cbn. lia. }
    exists st'. cbn in Hrun, Hcdn. rewrite Hrun. repeat split; try done.
    rewrite Hcdn. f_equal. f_equal; [by destruct os | cbn [length]; lia].
Qed.

(** ** Verify *)

Lemma verdict_cases a sol (data : gmap string jval) :
  data = verdict false false ->
  (let data := if String.eqb a sol
               then <["case_sensitive_correct" := JBool true]> data else data in
   if String.eqb (str_lower a) (str_lower sol)
   then <["case_insensitive_correct" := JBool true]> data else data)
  = verdict (String.eqb a sol) (String.eqb (str_lower a) (str_lower sol)).
Proof.
  intros ->. cbv zeta.
  destruct (String.eqb a sol), (String.eqb (str_lower a) (str_lower sol));
    vm_compute; reflexivity.
Qed.

(** One check below the limit with a non-empty attempt *)
Lemma check_solution_below sid attempt st (srec : SolutionRecord.t) :
  captchas_solution st !! sid = Some srec ->
  SolutionRecord.solution_checked srec < SolutionRecord.max_solution_check srec ->
  attempt <> EmptyString ->
  check_solution str_lower sid (Some attempt) st =
    (Json 200 (verdict (String.eqb attempt (SolutionRecord.solution srec))
                       (String.eqb (str_lower attempt)
                                   (str_lower (SolutionRecord.solution srec)))),
     FlaskApp (captcha_cdn st)
              (<[sid := SolutionRecord.checked srec]> (captchas_solution st))
              (captcha_count st)).
Proof.
  intros Hrec Hlt Hne. unfold check_solution. rewrite Hrec.
  destruct (Z.geb_spec (SolutionRecord.solution_checked srec)
                       (SolutionRecord.max_solution_check srec)); [lia |].
  destruct attempt as [| ch attempt]; [done |].
  f_equal. f_equal. by apply verdict_cases.
Qed.

(** One check at or over the limit *)
Lemma check_solution_over sid attempt st (srec : SolutionRecord.t) :
  captchas_solution st !! sid = Some srec ->
  SolutionRecord.max_solution_check srec <= SolutionRecord.solution_checked srec ->
  check_solution str_lower sid attempt st =
    (check_exhausted,
     FlaskApp (captcha_cdn st) (delete sid (captchas_solution st)) (captcha_count st)).
Proof.
  intros Hrec Hge. unfold check_solution. rewrite Hrec.
  by destruct (Z.geb_spec (SolutionRecord.solution_checked srec)
                          (SolutionRecord.max_solution_check srec)); [| lia].
Qed.

(** No check touches the image table. *)
Lemma check_solution_frame sid attempt st :
  captcha_cdn (check_solution str_lower sid attempt st).2 = captcha_cdn st
  /\ captcha_count (check_solution str_lower sid attempt st).2 = captcha_count st.
Proof.
  unfold check_solution. destruct (captchas_solution st !! sid) as [srec |]; [| done].
  destruct (_ >=? _); [done |]. by destruct attempt as [[| ? ?] |].
Qed.

(** A run of checks with non-empty attempts that stays within the limit *)
Lemma verify_all_below sid attempts st (srec : SolutionRecord.t) :
  captchas_solution st !! sid = Some srec ->
  SolutionRecord.solution_checked srec + Z.of_nat (length attempts)
    <= SolutionRecord.max_solution_check srec ->
  Forall (fun a => exists s, a = Some s /\ s <> EmptyString) attempts ->
  exists rs st',
    verify_all str_lower sid attempts st = (rs, st')
    /\ length rs = length attempts
    /\ Forall (fun r => exists cs ci, r = Json 200 (verdict cs ci)) rs
    /\ captcha_cdn st' = captcha_cdn st
    /\ captcha_count st' = captcha_count st
    /\ captchas_solution st' !! sid =
         Some (SolutionRecord.Make (SolutionRecord.solution srec)
                 (SolutionRecord.max_solution_check srec)
                 (SolutionRecord.solution_checked srec + Z.of_nat (length attempts))).
Proof.
  revert st srec. induction attempts as [| a attempts IH]; intros st srec Hrec Hle Hall.
  - exists [], st. cbn. rewrite Hrec, Z.add_0_r. by destruct srec.
  - apply Forall_cons in Hall as [(s & -> & Hs) Hall]. cbn [length] in Hle.
    cbn [verify_all]. rewrite (check_solution_below sid s st srec Hrec) by (done || lia).
    set (st1 := FlaskApp _ _ _).
    destruct (IH st1 (SolutionRecord.checked srec)) as (rs & st' & Hrun & Hlen & Hrs & Hcdn & Hcnt & Hsol).
    { subst st1. cbn. apply lookup_insert_eq. }
    { cbn. lia. }
    { done. }
    rewrite Hrun. eexists _, st'. split; [reflexivity |].
    split; [cbn; by rewrite Hlen |]. split; [constructor; eauto |].
    split; [done |]. split; [done |]. rewrite Hsol. cbn. do 2 f_equal. lia.
Qed.

(** ** Issue *)

Lemma api_captcha_rejects rq st o :
  ~ (1 <= default 5 (maxCdnAccess rq) <= 19 /\ 1 <= default 5 (maxSolutionCheck rq) <= 19) ->
  exists text,
    Eff.run (api_captcha urljoin rq st) o = (Json 400 (error_body 400 "error" text), st).
Proof.
  intros Hbad. unfold Eff.run, api_captcha. cbv zeta.
  destruct (_ || _) eqn:Hcdn; [by eexists |].
  destruct (_ || _) eqn:Hsol in |- *; [by eexists |].
  exfalso. apply Hbad. apply orb_false_elim in Hcdn as [? ?], Hsol as [? ?]. lia.
Qed.

Lemma api_captcha_accepts rq st o :
  1 <= default 5 (maxCdnAccess rq) <= 19 ->
  1 <= default 5 (maxSolutionCheck rq) <= 19 ->
  exists cdn_id solution_id solution t,
    Eff.run (api_captcha urljoin rq st) o =
      (Json 200 (issued_body urljoin (host_url rq) cdn_id solution_id),
       FlaskApp
         (<[cdn_id := CdnRecord.Make solution None t 0
                        (default 5 (maxCdnAccess rq)) solution_id]> (captcha_cdn st))
         (<[solution_id := SolutionRecord.Make solution
                             (default 5 (maxSolutionCheck rq)) 0]> (captchas_solution st))
         (captcha_count st + 1)).
Proof.
  intros Hcdn Hsol. unfold Eff.run, api_captcha. cbv zeta.
  destruct (_ || _) eqn:E1.
  { apply orb_prop in E1 as [? | ?]; lia. }
  destruct (_ || _) eqn:E2 in |- *.
  { apply orb_prop in E2 as [? | ?]; lia. }
  unfold Eff.bind.
  destruct (_b64_encrypt_id (captcha_count st) o Eff.start) as [solution_id c1].
  destruct (Eff.choice 4%nat [4; 5]%nat o c1) as [n c2].
  destruct (_id_generator n o c2) as [solution c3].
  destruct (Eff.utcnow o c3) as [now c4].
  destruct (_b64_encrypt_id (captcha_count st) o c4) as [cdn_id c5].
  by exists cdn_id, solution_id, solution, (now + 5 * 60 * 1000000).
Qed.

(** ** The claims about the lifecycle *)

(** C1.  A record issued with [maxCdnAccess = m], [1 <= m <= 19], is served
    on each of the first [m] fetches of its handle; the next fetch answers
    418 (exhausted) and leaves no record under the handle; every fetch after
    that answers 400 (not found) and changes nothing. *)
Theorem retrieve_limit rq st o :
  1 <= default 5 (maxCdnAccess rq) <= 19 ->
  1 <= default 5 (maxSolutionCheck rq) <= 19 ->
  exists cdn_id solution_id st1,
    issued urljoin rq st o cdn_id solution_id st1
    /\ forall os o' os',
         length os = Z.to_nat (default 5 (maxCdnAccess rq)) ->
         exists rs sa sb,
           retrieve_all cap_gen png cdn_id os st1 = (rs, sa)
           /\ length rs = length os
           /\ Forall served rs
           /\ Eff.run (get_img cap_gen png cdn_id sa) o' = (cdn_exhausted, sb)
           /\ status_of cdn_exhausted = 418
           /\ captcha_cdn sb !! cdn_id = None
           /\ retrieve_all cap_gen png cdn_id os' sb
                = (replicate (length os') cdn_key_not_found, sb)
           /\ status_of cdn_key_not_found = 400.
Proof.
  intros Hcdn Hsol.
  destruct (api_captcha_accepts rq st o Hcdn Hsol) as (cdn_id & sid & sol & t & Hissue).
  eexists cdn_id, sid, _. split; [exact Hissue |].
  intros os o' os' Hlen.
  set (rec := CdnRecord.Make sol None t 0 (default 5 (maxCdnAccess rq)) sid).
  set (st1 := FlaskApp _ _ _).
  destruct (retrieve_all_below cdn_id os st1 rec) as (sa & Hrun & Hsols & _ & Hrec).
  { apply lookup_insert_eq. }
  { cbn. lia. }
  cbn [CdnRecord.solution CdnRecord.time CdnRecord.cdn_accessed_number
       CdnRecord.max_cdn_access CdnRecord.solution_id rec] in Hrec.
  eexists _, sa, _. split; [exact Hrun |].
  split; [by rewrite length_replicate |].
  split; [apply Forall_replicate; by eexists |].
  split.
  { eapply get_img_over; [exact Hrec | cbn; lia |].
    cbn. rewrite Hsols. apply lookup_insert_eq. }
  split; [done |]. split; [apply lookup_delete_eq |]. split; [| done].
  apply retrieve_all_missing. apply lookup_delete_eq.
Qed.

(** C2.  A solution record issued with [maxSolutionCheck = k],
    [1 <= k <= 19], answers each of the first [k] checks that carry a
    non-empty attempt with a verdict; the next check answers 418, deletes
    the solution record and leaves the image table as it was, the paired
    image record included.  A fetch over the limit of the image record
    deletes the image record and the paired solution record. *)
Theorem verify_limit_and_cascade rq st o :
  1 <= default 5 (maxCdnAccess rq) <= 19 ->
  1 <= default 5 (maxSolutionCheck rq) <= 19 ->
  exists cdn_id solution_id st1,
    issued urljoin rq st o cdn_id solution_id st1
    /\ (forall attempts last,
          length attempts = Z.to_nat (default 5 (maxSolutionCheck rq)) ->
          Forall (fun a => exists s, a = Some s /\ s <> EmptyString) attempts ->
          exists rs sa sb,
            verify_all str_lower solution_id attempts st1 = (rs, sa)
            /\ length rs = length attempts
            /\ Forall (fun r => exists cs ci, r = Json 200 (verdict cs ci)) rs
            /\ check_solution str_lower solution_id last sa = (check_exhausted, sb)
            /\ status_of check_exhausted = 418
            /\ captchas_solution sb !! solution_id = None
            /\ captcha_cdn sb = captcha_cdn st1
            /\ is_Some (captcha_cdn sb !! cdn_id))
    /\ (forall os o',
          length os = Z.to_nat (default 5 (maxCdnAccess rq)) ->
          exists rs sa sb,
            retrieve_all cap_gen png cdn_id os st1 = (rs, sa)
            /\ is_Some (captchas_solution sa !! solution_id)
            /\ Eff.run (get_img cap_gen png cdn_id sa) o' = (cdn_exhausted, sb)
            /\ captcha_cdn sb !! cdn_id = None
            /\ captchas_solution sb !! solution_id = None).
Proof.
  intros Hcdn Hsol.
  destruct (api_captcha_accepts rq st o Hcdn Hsol) as (cdn_id & sid & sol & t & Hissue).
  eexists cdn_id, sid, _. split; [exact Hissue |].
  set (rec := CdnRecord.Make sol None t 0 (default 5 (maxCdnAccess rq)) sid).
  set (srec := SolutionRecord.Make sol (default 5 (maxSolutionCheck rq)) 0).
  set (st1 := FlaskApp _ _ _). split.
  - intros attempts last Hlen Hall.
    destruct (verify_all_below sid attempts st1 srec)
      as (rs & sa & Hrun & Hrs & Hok & Hframe & _ & Hrec); [apply lookup_insert_eq | cbn; lia | done |].
    exists rs, sa. eexists. split; [exact Hrun |]. split; [done |]. split; [done |].
    split; [eapply check_solution_over; [exact Hrec | cbn; lia] |].
    split; [done |]. split; [apply lookup_delete_eq |].
    split; [exact Hframe |]. cbn. rewrite Hframe. cbn. rewrite lookup_insert_eq. by eexists.
  - intros os o' Hlen.
    destruct (retrieve_all_below cdn_id os st1 rec) as (sa & Hrun & Hsols & _ & Hrec);
      [apply lookup_insert_eq | cbn; lia |].
    cbn [CdnRecord.solution CdnRecord.time CdnRecord.cdn_accessed_number
         CdnRecord.max_cdn_access CdnRecord.solution_id rec] in Hrec.
    assert (Hs : captchas_solution sa !! sid = Some srec)
      by (rewrite Hsols; apply lookup_insert_eq).
    eexists _, sa, _. split; [exact Hrun |]. split; [by eexists |].
    split; [eapply get_img_over; [exact Hrec | cbn; lia | exact Hs] |].
    split; apply lookup_delete_eq.
Qed.

(** With int limits, Issue answers with the 400 error exactly when one of
    the two limits, an absent one counting as 5, lies outside [1, 19]; it
    then leaves the state (both tables and the issue counter) as it was.
    [api_captcha_rejection] is the statement for limits of any JSON type. *)
Theorem api_captcha_invalid rq st o :
  let cdn_access := default 5 (maxCdnAccess rq) in
  let solution_check := default 5 (maxSolutionCheck rq) in
  let out := Eff.run (api_captcha urljoin rq st) o in
  ((exists text, out.1 = Json 400 (error_body 400 "error" text))
     <-> ~ (1 <= cdn_access <= 19) \/ ~ (1 <= solution_check <= 19))
  /\ (status_of out.1 = 400 <-> ~ (1 <= cdn_access <= 19) \/ ~ (1 <= solution_check <= 19))
  /\ (status_of out.1 = 400 -> out.2 = st)
  /\ api_captcha (Image := Image) urljoin (IssueRequest (host_url rq) None None)
       = api_captcha urljoin (IssueRequest (host_url rq) (Some 5) (Some 5)).
Proof.
  intros cdn_access solution_check out.
  destruct (decide (1 <= cdn_access <= 19 /\ 1 <= solution_check <= 19)) as [[Hc Hs] | Hbad].
  - destruct (api_captcha_accepts rq st o Hc Hs) as (cdn_id & sid & sol & t & Hissue).
    subst out. rewrite Hissue. cbn.
    split; [split; [by intros [? ?] | lia] |]. split; [split; [done | lia] | done].
  - destruct (api_captcha_rejects rq st o Hbad) as (text & Hreject).
    subst out. rewrite Hreject. cbn.
    split; [split; [lia | by eexists] |]. split; [split; [lia | done] | done].
Qed.

(** C4.  A check below the limit with a non-empty attempt answers 200 with
    a body of exactly two booleans: [case_sensitive_correct] is true iff the
    attempt is the stored solution, [case_insensitive_correct] is true iff
    the two are equal after [lower()].  So an attempt that differs from the
    solution only by letter case gets (false, true) and one whose
    lower-cased form differs gets (false, false).  No field of the body
    holds a string. *)
Theorem check_solution_verdict sid attempt st (srec : SolutionRecord.t) :
  captchas_solution st !! sid = Some srec ->
  SolutionRecord.solution_checked srec < SolutionRecord.max_solution_check srec ->
  attempt <> EmptyString ->
  exists cs ci,
    (check_solution str_lower sid (Some attempt) st).1 = Json 200 (verdict cs ci)
    /\ (cs = true <-> attempt = SolutionRecord.solution srec)
    /\ (ci = true <-> str_lower attempt = str_lower (SolutionRecord.solution srec))
    /\ (attempt <> SolutionRecord.solution srec ->
        str_lower attempt = str_lower (SolutionRecord.solution srec) ->
        cs = false /\ ci = true)
    /\ (str_lower attempt <> str_lower (SolutionRecord.solution srec) ->
        cs = false /\ ci = false)
    /\ verdict cs ci !! "case_sensitive_correct" = Some (JBool cs)
    /\ verdict cs ci !! "case_insensitive_correct" = Some (JBool ci)
    /\ map_Forall (fun _ v => exists b, v = JBool b) (verdict cs ci).
Proof.
  intros Hrec Hlt Hne. rewrite (check_solution_below sid attempt st srec) by done.
  eexists _, _. split; [reflexivity |].
  split; [apply String.eqb_eq |]. split; [apply String.eqb_eq |].
  split; [| split].
  - intros Hcs Hci. by rewrite (proj2 (String.eqb_neq _ _)), (proj2 (String.eqb_eq _ _)).
  - intros Hci. rewrite !(proj2 (String.eqb_neq _ _)); [done | done | congruence].
  - split; [done |]. split; [done |].
    unfold verdict. apply map_Forall_insert_2; [by eexists |].
    apply map_Forall_insert_2; [by eexists |]. apply map_Forall_empty.
Qed.

(** C5.  When the image record is at or over its limit and the paired
    solution record is gone, a fetch answers 400 (not 418) and leaves the
    state as it was, so the image record stays in the table and every
    further fetch answers 400 too. *)
Theorem retrieve_orphan key st rec o os :
  captcha_cdn st !! key = Some rec ->
  CdnRecord.max_cdn_access rec <= CdnRecord.cdn_accessed_number rec ->
  captchas_solution st !! CdnRecord.solution_id rec = None ->
  exists st',
    Eff.run (get_img cap_gen png key st) o = (cdn_key_not_found, st')
    /\ status_of cdn_key_not_found = 400
    /\ cdn_key_not_found <> cdn_exhausted
    /\ captcha_cdn st' !! key = Some rec
    /\ exists st'',
         retrieve_all cap_gen png key os st' = (replicate (length os) cdn_key_not_found, st'')
         /\ captcha_cdn st'' !! key = Some rec.
Proof.
  intros Hrec Hge Hsol. exists st.
  split; [by apply (get_img_orphan key st rec) |]. split; [done |]. split; [done |].
  split; [done |]. exists st. split; [| done].
  induction os as [| o1 os IH]; [done |].
  cbn [retrieve_all]. rewrite (get_img_orphan key st rec) by done. by rewrite IH.
Qed.

(** C9.  The record is issued without an image.  Within the limit, the
    first fetch renders the solution and stores the rendering in the
    record, and every fetch of the run, whatever entropy it is given, is
    served the PNG encoding of that one rendering. *)
Theorem retrieve_memoized rq st o :
  1 <= default 5 (maxCdnAccess rq) <= 19 ->
  1 <= default 5 (maxSolutionCheck rq) <= 19 ->
  exists cdn_id solution_id st1 rec,
    issued urljoin rq st o cdn_id solution_id st1
    /\ captcha_cdn st1 !! cdn_id = Some rec
    /\ CdnRecord.image rec = None
    /\ forall o1 os,
         Z.of_nat (length (o1 :: os)) <= default 5 (maxCdnAccess rq) ->
         let img := Eff.run (cap_gen (CdnRecord.solution rec)) o1 in
         exists st2 rec2,
           retrieve_all cap_gen png cdn_id (o1 :: os) st1
             = (replicate (length (o1 :: os)) (File "image/png" (png img)), st2)
           /\ captcha_cdn st2 !! cdn_id = Some rec2
           /\ CdnRecord.image rec2 = Some img.
Proof.
  intros Hcdn Hsol.
  destruct (api_captcha_accepts rq st o Hcdn Hsol) as (cdn_id & sid & sol & t & Hissue).
  eexists cdn_id, sid, _, _. split; [exact Hissue |].
  split; [apply lookup_insert_eq |]. split; [done |].
  intros o1 os Hlen img.
  set (rec := CdnRecord.Make sol None t 0 (default 5 (maxCdnAccess rq)) sid).
  set (st1 := FlaskApp _ _ _).
  destruct (retrieve_all_below cdn_id (o1 :: os) st1 rec) as (st2 & Hrun & _ & _ & Hrec).
  { apply lookup_insert_eq. }
  { cbn [CdnRecord.cdn_accessed_number CdnRecord.max_cdn_access rec]. lia. }
  eexists st2, _. split; [exact Hrun |]. split; [exact Hrec | done].
Qed.

End Lifecycle.

(** ** Salt and pepper *)

Section SaltAndPepper.

Context {pixel : Type}.
Variables (blank white : pixel).
Variables (img : Noise.image pixel) (probability : float).

Lemma salt_and_pepper_pixel_step x y out o c :
  Noise.salt_and_pepper_pixel white img probability x y out o c =
    (Noise.point pixel x y (Noise.peppered white img probability x y (Eff.draws o (Eff.drawn c))) out,
     Eff.Cursor (S (Eff.drawn c)) (Eff.ticked c)).
Proof.
  unfold Noise.salt_and_pepper_pixel, Noise.peppered, Eff.choice, Eff.bind, Eff.randbelow, Eff.ret.
  cbn [length Noise.levels]. by destruct (PrimFloat.ltb _ _).
Qed.

(** The inner loop: column [x], rows [y0 .. y0 + n - 1], one draw per row *)
Lemma column_loop x n : forall y0 out o c,
  exists out',
    Noise.for_each (seq y0 n) (Noise.salt_and_pepper_pixel white img probability x) out o c
      = (out', Eff.Cursor (Eff.drawn c + n) (Eff.ticked c))
    /\ Noise.mode out' = Noise.mode out
    /\ Noise.width out' = Noise.width out
    /\ Noise.height out' = Noise.height out
    /\ forall x' y',
         Noise.getpixel out' x' y' =
           if decide (x' = x /\ y0 <= y' < y0 + n)%nat
           then Noise.peppered white img probability x y' (Eff.draws o (Eff.drawn c + (y' - y0)))
           else Noise.getpixel out x' y'.
Proof.
  induction n as [| n IH]; intros y0 out o c.
  - exists out. cbn. rewrite Nat.add_0_r. destruct c. repeat split; try done.
    intros x' y'. case_decide; [lia | done].
  - cbn [seq Noise.for_each]. unfold Eff.bind at 1. rewrite salt_and_pepper_pixel_step.
    destruct (IH (S y0) (Noise.point pixel x y0
                (Noise.peppered white img probability x y0 (Eff.draws o (Eff.drawn c))) out)
                o (Eff.Cursor (S (Eff.drawn c)) (Eff.ticked c)))
      as (out' & Hrun & Hm & Hw & Hh & Hpx).
    exists out'. rewrite Hrun. cbn [Eff.drawn Eff.ticked] in *.
    split; [f_equal; f_equal; lia |]. repeat split; try done.
    intros x' y'. rewrite Hpx. cbn [Noise.getpixel Noise.point].
    case_decide as H1.
    + rewrite decide_True by lia. do 2 f_equal. lia.
    + destruct (Nat.eqb_spec x' x) as [-> |], (Nat.eqb_spec y' y0) as [-> |]; cbn [andb].
      * rewrite decide_True by lia. do 2 f_equal. lia.
      * rewrite decide_False by lia. done.
      * rewrite decide_False by lia. done.
      * rewrite decide_False by lia. done.
Qed.

(** The outer loop: columns [x0 .. x0 + n - 1], [h] draws per column *)
Lemma raster_loop h n : forall x0 out o c,
  exists out',
    Noise.for_each (seq x0 n)
      (fun x => Noise.for_each (seq 0 h) (Noise.salt_and_pepper_pixel white img probability x))
      out o c
      = (out', Eff.Cursor (Eff.drawn c + n * h) (Eff.ticked c))
    /\ Noise.mode out' = Noise.mode out
    /\ Noise.width out' = Noise.width out
    /\ Noise.height out' = Noise.height out
    /\ forall x' y',
         Noise.getpixel out' x' y' =
           if decide (x0 <= x' < x0 + n /\ y' < h)%nat
           then Noise.peppered white img probability x' y'
                  (Eff.draws o (Eff.drawn c + (x' - x0) * h + y'))
           else Noise.getpixel out x' y'.
Proof.
  induction n as [| n IH]; intros x0 out o c.
  - exists out. cbn. rewrite Nat.add_0_r. destruct c. repeat split; try done.
    intros x' y'. case_decide; [lia | done].
  - cbn [seq Noise.for_each]. unfold Eff.bind at 1.
    destruct (column_loop x0 h 0%nat out o c) as (out1 & Hrun1 & Hm1 & Hw1 & Hh1 & Hpx1).
    rewrite Hrun1.
    destruct (IH (S x0) out1 o (Eff.Cursor (Eff.drawn c + h) (Eff.ticked c)))
      as (out' & Hrun & Hm & Hw & Hh & Hpx).
    exists out'. rewrite Hrun. cbn [Eff.drawn Eff.ticked] in *.
    split; [f_equal; f_equal; lia |]. repeat split; try congruence.
    intros x' y'. rewrite Hpx, Hpx1.
    case_decide as H1.
    + rewrite decide_True by lia. do 2 f_equal. nia.
    + case_decide as H2.
      * rewrite decide_True by lia. destruct H2 as [-> ?]. do 2 f_equal.
        rewrite Nat.sub_diag. lia.
      * rewrite decide_False by lia. done.
Qed.

(** X15.  The stage keeps mode and size; the pixel at [(x, y)] is decided by draw
    number [x * height + y] alone: white if the level drawn is below
    [probability], the input pixel otherwise. *)
Lemma salt_and_pepper_pixels o :
  let out := Eff.run (Noise.salt_and_pepper blank white img probability) o in
  Noise.mode out = Noise.mode img
  /\ Noise.width out = Noise.width img
  /\ Noise.height out = Noise.height img
  /\ forall x y, (x < Noise.width img)%nat -> (y < Noise.height img)%nat ->
       Noise.getpixel out x y
         = Noise.peppered white img probability x y (Eff.draws o (x * Noise.height img + y))
       /\ (Noise.getpixel out x y = white \/ Noise.getpixel out x y = Noise.getpixel img x y).
Proof.
  unfold Eff.run, Noise.salt_and_pepper. cbv zeta.
  destruct (raster_loop (Noise.height img) (Noise.width img) 0%nat
              (Noise.new pixel blank (Noise.mode img) (Noise.width img) (Noise.height img))
              o Eff.start) as (out & Hrun & Hm & Hw & Hh & Hpx).
  rewrite Hrun. cbn [fst]. repeat split; try done.
  - rewrite Hpx, decide_True by lia. cbn. do 2 f_equal. lia.
  - rewrite Hpx, decide_True by lia. unfold Noise.peppered.
    destruct (PrimFloat.ltb _ _); auto.
Qed.

End SaltAndPepper.

(** C8, at [probability = 0.5].  Of the eleven equally likely draws, the
    five levels 0, 0.1, ..., 0.4 whiten the pixel and the six levels
    0.5, ..., 1 keep it: a pixel turns white with probability 5/11, which
    is not 1/2. *)
Theorem salt_and_pepper_half :
  Noise.whitening_draws 0.5%float = [0; 1; 2; 3; 4]%nat
  /\ map (Noise.dot_after 0.5%float) (seq 0 11)
     = replicate 5 Noise.rgb_white ++ replicate 6 (0, 0, 0)
  /\ ~ (Z.of_nat (length (Noise.whitening_draws 0.5%float)) # 11 == 1 # 2)%Q.
Proof.
  split; [by vm_compute |]. split; [by vm_compute |].
  vm_compute. discriminate.
Qed.

(** ** Handlers run one at a time *)

(** With the handlers run one after the other, two fetches against a record
    one access away from its limit: the first is served, the second finds
    the limit reached and deletes the record. *)
Lemma last_access_in_sequence {Image} (cap_gen : string -> Eff.t Image) (png : Image -> list Z)
    key (st : flask_app Image) rec srec o1 o2 :
  captcha_cdn st !! key = Some rec ->
  CdnRecord.cdn_accessed_number rec = CdnRecord.max_cdn_access rec - 1 ->
  captchas_solution st !! CdnRecord.solution_id rec = Some srec ->
  exists r1 st1 st2,
    Eff.run (get_img cap_gen png key st) o1 = (r1, st1)
    /\ served r1
    /\ Eff.run (get_img cap_gen png key st1) o2 = (cdn_exhausted, st2)
    /\ captcha_cdn st2 !! key = None.
Proof.
  intros Hrec Hcount Hsol.
  eexists _, _, _. split; [apply (get_img_below cap_gen png key st rec); [done | lia] |].
  split; [by eexists |]. split.
  - eapply get_img_over; [apply lookup_insert_eq | cbn; lia | cbn; exact Hsol].
  - apply lookup_delete_eq.
Qed.

(** ** The concrete instance *)

Example demo_issue :
  issued Demo.urljoin Demo.single Demo.empty Demo.oracle Demo.cdn_id Demo.solution_id
         (FlaskApp {[ Demo.cdn_id := CdnRecord.Make "GPWdk" None 1700000305123457 0 1
                                       Demo.solution_id ]}
                   {[ Demo.solution_id := SolutionRecord.Make "GPWdk" 1 0 ]} 1).
Proof. by vm_compute. Qed.

Example demo_verdicts :
  (check_solution Demo.lower Demo.solution_id (Some "GPWdk") Demo.checking).1
    = Json 200 (verdict true true)
  /\ (check_solution Demo.lower Demo.solution_id (Some "gpwDK") Demo.checking).1
    = Json 200 (verdict false true)
  /\ (check_solution Demo.lower Demo.solution_id (Some "GPWdx") Demo.checking).1
    = Json 200 (verdict false false)
  /\ status_of (check_solution Demo.lower Demo.solution_id (Some "") Demo.checking).1 = 400
  /\ status_of (check_solution Demo.lower Demo.solution_id None Demo.checking).1 = 400.
Proof. repeat split; by vm_compute. Qed.

Example demo_handle_text : handle_text 12 "abcdefghij" "07" = "12.abcdefghij.07".
Proof. reflexivity. Qed.

Example demo_b64encode :
  decode (b64encode (utf8_bytes "0.szGPWdkszG.25")) = Demo.cdn_id
  /\ decode (b64encode (utf8_bytes "light w")) = "bGlnaHQgdw=="
  /\ decode (b64encode (utf8_bytes "light wo")) = "bGlnaHQgd28=".
Proof. repeat split; reflexivity. Qed.

(** ** Instances of the theorems *)

Lemma retrieve_limit_witness :
  1 <= default 5 (maxCdnAccess Demo.request) <= 19
  /\ 1 <= default 5 (maxSolutionCheck Demo.request) <= 19
  /\ exists cdn_id solution_id st1,
       issued Demo.urljoin Demo.request Demo.empty Demo.oracle cdn_id solution_id st1
       /\ forall os o' os',
            length os = Z.to_nat (default 5 (maxCdnAccess Demo.request)) ->
            exists rs sa sb,
              retrieve_all Demo.cap_gen Demo.png cdn_id os st1 = (rs, sa)
              /\ length rs = length os
              /\ Forall served rs
              /\ Eff.run (get_img Demo.cap_gen Demo.png cdn_id sa) o' = (cdn_exhausted, sb)
              /\ status_of cdn_exhausted = 418
              /\ captcha_cdn sb !! cdn_id = None
              /\ retrieve_all Demo.cap_gen Demo.png cdn_id os' sb
                   = (replicate (length os') cdn_key_not_found, sb)
              /\ status_of cdn_key_not_found = 400.
Proof.
  assert (H1 : 1 <= default 5 (maxCdnAccess Demo.request) <= 19) by (simpl; lia).
  assert (H2 : 1 <= default 5 (maxSolutionCheck Demo.request) <= 19) by (simpl; lia).
  split; [exact H1 |]. split; [exact H2 |].
  exact (retrieve_limit Demo.cap_gen Demo.png Demo.urljoin Demo.request Demo.empty
           Demo.oracle H1 H2).
Defined.

Lemma verify_limit_and_cascade_witness :
  1 <= default 5 (maxCdnAccess Demo.request) <= 19
  /\ 1 <= default 5 (maxSolutionCheck Demo.request) <= 19
  /\ exists cdn_id solution_id st1,
       issued Demo.urljoin Demo.request Demo.empty Demo.oracle cdn_id solution_id st1
       /\ (forall attempts last,
             length attempts = Z.to_nat (default 5 (maxSolutionCheck Demo.request)) ->
             Forall (fun a => exists s, a = Some s /\ s <> EmptyString) attempts ->
             exists rs sa sb,
               verify_all Demo.lower solution_id attempts st1 = (rs, sa)
               /\ length rs = length attempts
               /\ Forall (fun r => exists cs ci, r = Json 200 (verdict cs ci)) rs
               /\ check_solution Demo.lower solution_id last sa = (check_exhausted, sb)
               /\ status_of check_exhausted = 418
               /\ captchas_solution sb !! solution_id = None
               /\ captcha_cdn sb = captcha_cdn st1
               /\ is_Some (captcha_cdn sb !! cdn_id))
       /\ (forall os o',
             length os = Z.to_nat (default 5 (maxCdnAccess Demo.request)) ->
             exists rs sa sb,
               retrieve_all Demo.cap_gen Demo.png cdn_id os st1 = (rs, sa)
               /\ is_Some (captchas_solution sa !! solution_id)
               /\ Eff.run (get_img Demo.cap_gen Demo.png cdn_id sa) o' = (cdn_exhausted, sb)
               /\ captcha_cdn sb !! cdn_id = None
               /\ captchas_solution sb !! solution_id = None).
Proof.
  assert (H1 : 1 <= default 5 (maxCdnAccess Demo.request) <= 19) by (simpl; lia).
  assert (H2 : 1 <= default 5 (maxSolutionCheck Demo.request) <= 19) by (simpl; lia).
  split; [exact H1 |]. split; [exact H2 |].
  exact (verify_limit_and_cascade Demo.cap_gen Demo.png Demo.lower Demo.urljoin Demo.request
           Demo.empty Demo.oracle H1 H2).
Defined.

Lemma check_solution_verdict_witness :
  captchas_solution Demo.checking !! Demo.solution_id = Some (SolutionRecord.Make "GPWdk" 3 0)
  /\ 0 < 3
  /\ "gpwDK"%string <> EmptyString
  /\ exists cs ci,
       (check_solution Demo.lower Demo.solution_id (Some "gpwDK") Demo.checking).1
         = Json 200 (verdict cs ci)
       /\ (cs = true <-> "gpwDK"%string = "GPWdk"%string)
       /\ (ci = true <-> Demo.lower "gpwDK" = Demo.lower "GPWdk")
       /\ ("gpwDK"%string <> "GPWdk"%string ->
           Demo.lower "gpwDK" = Demo.lower "GPWdk" -> cs = false /\ ci = true)
       /\ (Demo.lower "gpwDK" <> Demo.lower "GPWdk" -> cs = false /\ ci = false)
       /\ verdict cs ci !! "case_sensitive_correct" = Some (JBool cs)
       /\ verdict cs ci !! "case_insensitive_correct" = Some (JBool ci)
       /\ map_Forall (fun _ v => exists b, v = JBool b) (verdict cs ci).
Proof.
  assert (H1 : captchas_solution Demo.checking !! Demo.solution_id
               = Some (SolutionRecord.Make "GPWdk" 3 0)) by (vm_compute; reflexivity).
  assert (H2 : 0 < 3) by lia.
  assert (H3 : "gpwDK"%string <> EmptyString) by discriminate.
  split; [exact H1 |]. split; [exact H2 |]. split; [exact H3 |].
  exact (check_solution_verdict Demo.lower Demo.solution_id "gpwDK" Demo.checking
           (SolutionRecord.Make "GPWdk" 3 0) H1 H2 H3).
Defined.

Lemma retrieve_orphan_witness :
  captcha_cdn Demo.orphaned !! Demo.cdn_id = Some Demo.orphan_record
  /\ CdnRecord.max_cdn_access Demo.orphan_record
       <= CdnRecord.cdn_accessed_number Demo.orphan_record
  /\ captchas_solution Demo.orphaned !! CdnRecord.solution_id Demo.orphan_record = None
  /\ exists st',
       Eff.run (get_img Demo.cap_gen Demo.png Demo.cdn_id Demo.orphaned) Demo.oracle
         = (cdn_key_not_found, st')
       /\ status_of cdn_key_not_found = 400
       /\ cdn_key_not_found <> cdn_exhausted
       /\ captcha_cdn st' !! Demo.cdn_id = Some Demo.orphan_record
       /\ exists st'',
            retrieve_all Demo.cap_gen Demo.png Demo.cdn_id [Demo.oracle; Demo.oracle] st'
              = (replicate (length [Demo.oracle; Demo.oracle]) cdn_key_not_found, st'')
            /\ captcha_cdn st'' !! Demo.cdn_id = Some Demo.orphan_record.
Proof.
  assert (H1 : captcha_cdn Demo.orphaned !! Demo.cdn_id = Some Demo.orphan_record)
    by (vm_compute; reflexivity).
  assert (H2 : CdnRecord.max_cdn_access Demo.orphan_record
               <= CdnRecord.cdn_accessed_number Demo.orphan_record) by (simpl; lia).
  assert (H3 : captchas_solution Demo.orphaned !! CdnRecord.solution_id Demo.orphan_record
               = None) by (vm_compute; reflexivity).
  split; [exact H1 |]. split; [exact H2 |]. split; [exact H3 |].
  exact (retrieve_orphan Demo.cap_gen Demo.png Demo.cdn_id Demo.orphaned Demo.orphan_record
           Demo.oracle [Demo.oracle; Demo.oracle] H1 H2 H3).
Defined.

Lemma retrieve_memoized_witness :
  1 <= default 5 (maxCdnAccess Demo.request) <= 19
  /\ 1 <= default 5 (maxSolutionCheck Demo.request) <= 19
  /\ exists cdn_id solution_id st1 rec,
       issued Demo.urljoin Demo.request Demo.empty Demo.oracle cdn_id solution_id st1
       /\ captcha_cdn st1 !! cdn_id = Some rec
       /\ CdnRecord.image rec = None
       /\ forall o1 os,
            Z.of_nat (length (o1 :: os)) <= default 5 (maxCdnAccess Demo.request) ->
            let img := Eff.run (Demo.cap_gen (CdnRecord.solution rec)) o1 in
            exists st2 rec2,
              retrieve_all Demo.cap_gen Demo.png cdn_id (o1 :: os) st1
                = (replicate (length (o1 :: os)) (File "image/png" (Demo.png img)), st2)
              /\ captcha_cdn st2 !! cdn_id = Some rec2
              /\ CdnRecord.image rec2 = Some img.
Proof.
  assert (H1 : 1 <= default 5 (maxCdnAccess Demo.request) <= 19) by (simpl; lia).
  assert (H2 : 1 <= default 5 (maxSolutionCheck Demo.request) <= 19) by (simpl; lia).
  split; [exact H1 |]. split; [exact H2 |].
  exact (retrieve_memoized Demo.cap_gen Demo.png Demo.urljoin Demo.request Demo.empty
           Demo.oracle H1 H2).
Defined.

(** * Further properties *)

(** ** The handle codec is lossless *)

Lemma eight_bit_complete b : 0 <= b < 256 -> In b eight_bit.
Proof.
  intros Hb. unfold eight_bit. apply in_map_iff. exists (Z.to_nat b).
  split; [lia | apply in_seq; lia].
Qed.

Lemma code_range c : 0 <= code c < 256.
Proof.
  unfold code. pose proof (N_ascii_bounded c). lia.
Qed.

Lemma code_inj c1 c2 : code c1 = code c2 -> c1 = c2.
Proof.
  unfold code. intros H. apply N2Z.inj in H.
  rewrite <- (ascii_N_embedding c1), <- (ascii_N_embedding c2). by rewrite H.
Qed.

Lemma utf8_bytes_range s : Forall (fun b => 0 <= b < 256) (utf8_bytes s).
Proof. unfold utf8_bytes. apply Forall_map, Forall_forall. intros c _. apply code_range. Qed.

Lemma utf8_bytes_inj s1 s2 : utf8_bytes s1 = utf8_bytes s2 -> s1 = s2.
Proof.
  unfold utf8_bytes, chars. intros H.
  rewrite <- (string_of_list_ascii_of_string s1), <- (string_of_list_ascii_of_string s2).
  f_equal. revert H. generalize (list_ascii_of_string s1) (list_ascii_of_string s2).
  induction l as [| c l IH]; intros [| c' l'] H; try done.
  cbn in H. injection H as Hc Hl. f_equal; [by apply code_inj | by apply IH].
Qed.

Lemma decode_inj l1 l2 : decode l1 = decode l2 -> l1 = l2.
Proof. intros H. by rewrite <- (chars_decode l1), <- (chars_decode l2), H. Qed.

(** The sextets over pairs of bytes, checked exhaustively *)
Lemma octet_pairs :
  forallb (fun a => forallb (fun b =>
      let i1 := b64_index (b64_char (Z.shiftr a 2)) in
      let i2 := b64_index (b64_char (Z.lor (Z.shiftl (Z.land a 3) 4) (Z.shiftr b 4))) in
      let i3 := b64_index (b64_char (Z.lor (Z.shiftl (Z.land a 15) 2) (Z.shiftr b 6))) in
      let i4 := b64_index (b64_char (Z.land b 63)) in
      let j2 := b64_index (b64_char (Z.shiftl (Z.land a 3) 4)) in
      let j3 := b64_index (b64_char (Z.shiftl (Z.land a 15) 2)) in
      (Z.lor (Z.shiftl i1 2) (Z.shiftr i2 4) =? a)
      && (Z.lor (Z.shiftl i1 2) (Z.shiftr j2 4) =? a)
      && (Z.land i2 15 =? Z.shiftr b 4)
      && (Z.shiftr i3 2 =? Z.land a 15)
      && (Z.shiftr j3 2 =? Z.land a 15)
      && (Z.lor (Z.shiftl (Z.shiftr a 4) 4) (Z.land a 15) =? a)
      && (Z.lor (Z.shiftl (Z.land i3 3) 6) i4 =? b)
      && negb (Ascii.eqb (b64_char (Z.lor (Z.shiftl (Z.land a 15) 2) (Z.shiftr b 6))) "=")
      && negb (Ascii.eqb (b64_char (Z.land b 63)) "=")) eight_bit) eight_bit = true.
Proof. vm_compute. reflexivity. Qed.

Lemma octet_facts a b :
  0 <= a < 256 -> 0 <= b < 256 ->
  let i1 := b64_index (b64_char (Z.shiftr a 2)) in
  let i2 := b64_index (b64_char (Z.lor (Z.shiftl (Z.land a 3) 4) (Z.shiftr b 4))) in
  let i3 := b64_index (b64_char (Z.lor (Z.shiftl (Z.land a 15) 2) (Z.shiftr b 6))) in
  let i4 := b64_index (b64_char (Z.land b 63)) in
  let j2 := b64_index (b64_char (Z.shiftl (Z.land a 3) 4)) in
  let j3 := b64_index (b64_char (Z.shiftl (Z.land a 15) 2)) in
  Z.lor (Z.shiftl i1 2) (Z.shiftr i2 4) = a
  /\ Z.lor (Z.shiftl i1 2) (Z.shiftr j2 4) = a
  /\ Z.land i2 15 = Z.shiftr b 4
  /\ Z.shiftr i3 2 = Z.land a 15
  /\ Z.shiftr j3 2 = Z.land a 15
  /\ Z.lor (Z.shiftl (Z.shiftr a 4) 4) (Z.land a 15) = a
  /\ Z.lor (Z.shiftl (Z.land i3 3) 6) i4 = b
  /\ Ascii.eqb (b64_char (Z.lor (Z.shiftl (Z.land a 15) 2) (Z.shiftr b 6))) "=" = false
  /\ Ascii.eqb (b64_char (Z.land b 63)) "=" = false.
Proof.
  intros Ha Hb. pose proof octet_pairs as H.
  rewrite forallb_forall in H. specialize (H a (eight_bit_complete a Ha)).
  rewrite forallb_forall in H. specialize (H b (eight_bit_complete b Hb)).
  cbv zeta in *. repeat (apply andb_prop in H as [H ?]).
  repeat match goal with
         | H : (_ =? _) = true |- _ => apply Z.eqb_eq in H
         | H : negb _ = true |- _ => apply negb_true_iff in H
         end.
  by repeat split.
Qed.

Lemma b64_round_trip bs :
  Forall (fun b => 0 <= b < 256) bs -> b64decode (b64encode bs) = bs.
Proof.
  induction bs as [| a | a b | a b c rest IH] using triples_ind; intros Hbs.
  - done.
  - apply Forall_cons in Hbs as [Ha _].
    destruct (octet_facts a a Ha Ha) as (_ & H1 & _).
    cbn [b64encode b64decode]. cbv zeta. by rewrite Ascii.eqb_refl, H1.
  - apply Forall_cons in Hbs as [Ha Hbs]. apply Forall_cons in Hbs as [Hb _].
    destruct (octet_facts a b Ha Hb) as (H1 & _ & H2 & _).
    destruct (octet_facts b b Hb Hb) as (_ & _ & _ & _ & H3 & H4 & _).
    cbn [b64encode b64decode]. cbv zeta. rewrite Ascii.eqb_refl, H1, H2, H3, H4.
    assert (Hpad : Ascii.eqb (b64_char (Z.shiftl (Z.land b 15) 2)) "=" = false).
    { destruct (octet_facts b 0 Hb) as (_ & _ & _ & _ & _ & _ & _ & H5 & _); [lia |].
      by rewrite Z.shiftr_0_l, Z.lor_0_r in H5. }
    by rewrite Hpad.
  - apply Forall_cons in Hbs as [Ha Hbs]. apply Forall_cons in Hbs as [Hb Hbs].
    apply Forall_cons in Hbs as [Hc Hbs].
    destruct (octet_facts a b Ha Hb) as (H1 & _ & H2 & _).
    destruct (octet_facts b c Hb Hc) as (_ & _ & _ & H3 & _ & H4 & H5 & H6 & H7).
    cbn [b64encode b64decode]. cbv zeta. rewrite H1, H2, H3, H4, H5, H6, H7.
    by rewrite IH.
Qed.

Lemma b64encode_inj bs1 bs2 :
  Forall (fun b => 0 <= b < 256) bs1 -> Forall (fun b => 0 <= b < 256) bs2 ->
  b64encode bs1 = b64encode bs2 -> bs1 = bs2.
Proof.
  intros H1 H2 H. by rewrite <- (b64_round_trip bs1), <- (b64_round_trip bs2), H.
Qed.

Lemma handle_of_text c1 s1 t1 c2 s2 t2 :
  handle_of c1 s1 t1 = handle_of c2 s2 t2 -> handle_text c1 s1 t1 = handle_text c2 s2 t2.
Proof.
  unfold handle_of. intros H%decode_inj.
  apply b64encode_inj in H; [by apply utf8_bytes_inj | apply utf8_bytes_range..].
Qed.

(** The decimal form of an integer holds no full stop. *)
Lemma str_of_int_no_dot n : "."%char ∉ chars (str_of_int n).
Proof.
  assert (Hu : forall u, "."%char ∉ chars (NilEmpty.string_of_uint u)).
  { induction u; cbn; [apply not_elem_of_nil | ..];
      (apply not_elem_of_cons; split; [discriminate | done]). }
  assert (Hz : forall u, "."%char ∉ chars (NilZero.string_of_uint u)).
  { intros u. unfold NilZero.string_of_uint. destruct u; try apply Hu.
    cbn. apply not_elem_of_cons. split; [discriminate | apply not_elem_of_nil]. }
  unfold str_of_int, NilZero.string_of_int. destruct (Z.to_int n); [apply Hz |].
  cbn. apply not_elem_of_cons. split; [discriminate | apply Hz].
Qed.

Lemma str_of_int_inj n1 n2 : str_of_int n1 = str_of_int n2 -> n1 = n2.
Proof.
  unfold str_of_int. intros H.
  assert (Hnn : forall n, Z.to_int n <> Decimal.Pos Decimal.Nil
                          /\ Z.to_int n <> Decimal.Neg Decimal.Nil).
  { intros [| p | p]; cbn; split; try discriminate;
      intros [= Hp]; by apply (DecimalPos.Unsigned.to_uint_nonnil p). }
  assert (Hi : Z.to_int n1 = Z.to_int n2).
  { apply (f_equal NilZero.int_of_string) in H.
    rewrite !NilZero.isi in H by apply Hnn. congruence. }
  by rewrite <- (DecimalZ.of_to n1), <- (DecimalZ.of_to n2), Hi.
Qed.

(** Two lists that agree up to and including the first occurrence of [x] *)
Lemma split_at_first {A} (x : A) l1 r1 l2 r2 :
  x ∉ l1 -> x ∉ l2 -> l1 ++ x :: r1 = l2 ++ x :: r2 -> l1 = l2.
Proof.
  revert l2. induction l1 as [| a l1 IH]; intros [| b l2] H1 H2 H; cbn in H.
  - done.
  - injection H as -> _. exfalso. apply H2. left.
  - injection H as -> _. exfalso. apply H1. left.
  - injection H as -> H. f_equal. apply IH; [| | done].
    + intros Hx. apply H1. by right.
    + intros Hx. apply H2. by right.
Qed.

Lemma handle_text_counter c1 s1 t1 c2 s2 t2 :
  handle_text c1 s1 t1 = handle_text c2 s2 t2 -> c1 = c2.
Proof.
  unfold handle_text. intros H. apply (f_equal chars) in H.
  rewrite !chars_app in H. cbn [chars list_ascii_of_string List.app] in H.
  apply str_of_int_inj.
  rewrite <- (string_of_list_ascii_of_string (str_of_int c1)),
          <- (string_of_list_ascii_of_string (str_of_int c2)).
  f_equal. eapply (split_at_first "."%char); [apply str_of_int_no_dot.. | exact H].
Qed.

Lemma handle_of_counter c1 s1 t1 c2 s2 t2 :
  handle_of c1 s1 t1 = handle_of c2 s2 t2 -> c1 = c2.
Proof. intros H%handle_of_text. by apply handle_text_counter in H. Qed.

Lemma b64_encrypt_id_handle n o c :
  exists salt,
    (_b64_encrypt_id n o c).1 = handle_of n salt (strftime_S (Eff.ticks o (Eff.ticked c)))
    /\ String.length salt = 10%nat
    /\ Forall (fun ch => ch ∈ chars alphabet) (chars salt).
Proof.
  unfold _b64_encrypt_id, Eff.bind, Eff.utcnow.
  pose proof (id_generator_length 10 o (Eff.Cursor (Eff.drawn c) (S (Eff.ticked c)))) as Hlen.
  pose proof (id_generator_chars 10 o (Eff.Cursor (Eff.drawn c) (S (Eff.ticked c)))) as Hch.
  destruct (_id_generator 10 o _) as [salt c1]. cbn [fst Eff.ret] in *.
  exists salt. by repeat split.
Qed.

Lemma id_generator_cursor y o c :
  (_id_generator y o c).2 = Eff.Cursor (Eff.drawn c + y) (Eff.ticked c).
Proof.
  revert c. induction y as [| y IH]; intros c.
  - cbn. rewrite Nat.add_0_r. by destruct c.
  - cbn [_id_generator]. unfold Eff.bind at 1, Eff.choice, Eff.bind at 1, Eff.randbelow, Eff.ret.
    unfold Eff.bind. specialize (IH (Eff.Cursor (S (Eff.drawn c)) (Eff.ticked c))).
    destruct (_id_generator y o _) as [rest c2]. cbn in *. rewrite IH. f_equal. lia.
Qed.

Lemma b64_encrypt_id_cursor n o c :
  (_b64_encrypt_id n o c).2 = Eff.Cursor (Eff.drawn c + 10) (S (Eff.ticked c)).
Proof.
  unfold _b64_encrypt_id, Eff.bind, Eff.utcnow.
  pose proof (id_generator_cursor 10 o (Eff.Cursor (Eff.drawn c) (S (Eff.ticked c)))) as Hc.
  by destruct (_id_generator 10 o _) as [salt c1].
Qed.

(** ** The handlers, case by case *)

Section Cases.

Context {Image : Type}.
Variable cap_gen : string -> Eff.t Image.
Variable png : Image -> list Z.
Variable str_lower : string -> string.
Variable urljoin : string -> string -> string.

Implicit Types (st : flask_app Image) (rec : CdnRecord.t Image) (o : Eff.oracle).

Lemma get_img_cases key st o :
  (captcha_cdn st !! key = None
   /\ Eff.run (get_img cap_gen png key st) o = (cdn_key_not_found, st))
  \/ (exists rec,
        captcha_cdn st !! key = Some rec
        /\ CdnRecord.cdn_accessed_number rec < CdnRecord.max_cdn_access rec
        /\ Eff.run (get_img cap_gen png key st) o =
             (File "image/png" (png (held_or_rendered cap_gen rec o)),
              FlaskApp (<[key := CdnRecord.set_image (held_or_rendered cap_gen rec o)
                                   (CdnRecord.accessed rec)]> (captcha_cdn st))
                       (captchas_solution st) (captcha_count st)))
  \/ (exists rec s,
        captcha_cdn st !! key = Some rec
        /\ CdnRecord.max_cdn_access rec <= CdnRecord.cdn_accessed_number rec
        /\ captchas_solution st !! CdnRecord.solution_id rec = Some s
        /\ Eff.run (get_img cap_gen png key st) o =
             (cdn_exhausted,
              FlaskApp (delete key (captcha_cdn st))
                       (delete (CdnRecord.solution_id rec) (captchas_solution st))
                       (captcha_count st)))
  \/ (exists rec,
        captcha_cdn st !! key = Some rec
        /\ CdnRecord.max_cdn_access rec <= CdnRecord.cdn_accessed_number rec
        /\ captchas_solution st !! CdnRecord.solution_id rec = None
        /\ Eff.run (get_img cap_gen png key st) o = (cdn_key_not_found, st)).
Proof.
  destruct (captcha_cdn st !! key) as [rec |] eqn:Hrec.
  - right.
    destruct (Z.lt_ge_cases (CdnRecord.cdn_accessed_number rec) (CdnRecord.max_cdn_access rec))
      as [Hlt | Hge].
    + left. exists rec. split; [done |]. split; [done |]. by apply get_img_below.
    + right. destruct (captchas_solution st !! CdnRecord.solution_id rec) as [s |] eqn:Hs.
      * left. exists rec, s. repeat split; try done. by eapply get_img_over.
      * right. exists rec. repeat split; try done. by apply (get_img_orphan cap_gen png key st rec).
  - left. split; [done |]. by apply get_img_missing.
Qed.

Lemma check_solution_missing sid attempt st :
  captchas_solution st !! sid = None ->
  check_solution str_lower sid attempt st = (solution_id_not_found, st).
Proof. intros H. unfold check_solution. by rewrite H. Qed.

(** A check below the limit that carries no attempt is counted all the same. *)
Lemma check_solution_falsy sid attempt st (srec : SolutionRecord.t) :
  captchas_solution st !! sid = Some srec ->
  SolutionRecord.solution_checked srec < SolutionRecord.max_solution_check srec ->
  falsy attempt ->
  check_solution str_lower sid attempt st =
    (attempt_not_found,
     FlaskApp (captcha_cdn st)
              (<[sid := SolutionRecord.checked srec]> (captchas_solution st))
              (captcha_count st)).
Proof.
  intros Hrec Hlt Hf. unfold check_solution. rewrite Hrec.
  destruct (Z.geb_spec (SolutionRecord.solution_checked srec)
                       (SolutionRecord.max_solution_check srec)); [lia |].
  by destruct Hf as [-> | ->].
Qed.

Lemma falsy_or_text (attempt : option string) :
  falsy attempt \/ exists a, attempt = Some a /\ a <> EmptyString.
Proof.
  destruct attempt as [[| ch a] |]; [left; by right | right | left; by left].
  by eexists.
Qed.

Lemma check_solution_cases sid attempt st :
  (captchas_solution st !! sid = None
   /\ check_solution str_lower sid attempt st = (solution_id_not_found, st))
  \/ (exists srec,
        captchas_solution st !! sid = Some srec
        /\ SolutionRecord.max_solution_check srec <= SolutionRecord.solution_checked srec
        /\ check_solution str_lower sid attempt st =
             (check_exhausted,
              FlaskApp (captcha_cdn st) (delete sid (captchas_solution st))
                       (captcha_count st)))
  \/ (exists srec r,
        captchas_solution st !! sid = Some srec
        /\ SolutionRecord.solution_checked srec < SolutionRecord.max_solution_check srec
        /\ check_solution str_lower sid attempt st =
             (r, FlaskApp (captcha_cdn st)
                          (<[sid := SolutionRecord.checked srec]> (captchas_solution st))
                          (captcha_count st))
        /\ ((falsy attempt /\ r = attempt_not_found)
            \/ (exists a, attempt = Some a /\ a <> EmptyString
                /\ r = Json 200 (verdict
                       (String.eqb a (SolutionRecord.solution srec))
                       (String.eqb (str_lower a)
                                   (str_lower (SolutionRecord.solution srec))))))).
Proof.
  destruct (captchas_solution st !! sid) as [srec |] eqn:Hrec.
  - right.
    destruct (Z.lt_ge_cases (SolutionRecord.solution_checked srec)
                            (SolutionRecord.max_solution_check srec)) as [Hlt | Hge].
    + right. destruct (falsy_or_text attempt) as [Hf | (a & -> & Ha)].
      * exists srec, attempt_not_found. repeat split; try done.
        -- by apply (check_solution_falsy sid attempt st srec).
        -- by left.
      * eexists srec, _. split; [done |]. split; [done |].
        split; [by apply (check_solution_below str_lower sid a st srec) |]. right. by exists a.
    + left. exists srec. repeat split; try done. by apply (check_solution_over str_lower sid attempt st srec).
  - left. split; [done |]. by apply check_solution_missing.
Qed.

(** What a successful Issue does to the state *)
Lemma api_captcha_detail rq st o :
  1 <= default 5 (maxCdnAccess rq) <= 19 ->
  1 <= default 5 (maxSolutionCheck rq) <= 19 ->
  exists salt1 t1 salt2 t2 solution now,
    let solution_id := handle_of (captcha_count st) salt1 t1 in
    let cdn_id := handle_of (captcha_count st) salt2 t2 in
    solution_shape solution
    /\ Eff.run (api_captcha urljoin rq st) o =
      (Json 200 (issued_body urljoin (host_url rq) cdn_id solution_id),
       FlaskApp
         (<[cdn_id := CdnRecord.Make solution None (now + 5 * 60 * 1000000) 0
                        (default 5 (maxCdnAccess rq)) solution_id]> (captcha_cdn st))
         (<[solution_id := SolutionRecord.Make solution
                             (default 5 (maxSolutionCheck rq)) 0]> (captchas_solution st))
         (captcha_count st + 1)).
Proof.
  intros Hcdn Hsol. unfold Eff.run, api_captcha. cbv zeta.
  destruct (_ || _) eqn:E1.
  { apply orb_prop in E1 as [? | ?]; lia. }
  destruct (_ || _) eqn:E2 in |- *.
  { apply orb_prop in E2 as [? | ?]; lia. }
  unfold Eff.bind.
  destruct (b64_encrypt_id_handle (captcha_count st) o Eff.start) as (salt1 & Hh1 & _).
  destruct (_b64_encrypt_id (captcha_count st) o Eff.start) as [solution_id c1].
  pose proof (choice_in 4%nat [4; 5]%nat o c1) as Hn.
  destruct (Eff.choice 4%nat [4; 5]%nat o c1) as [n c2].
  pose proof (id_generator_length n o c2) as Hlen.
  pose proof (id_generator_chars n o c2) as Hch.
  destruct (_id_generator n o c2) as [solution c3].
  destruct (Eff.utcnow o c3) as [now c4].
  destruct (b64_encrypt_id_handle (captcha_count st) o c4) as (salt2 & Hh2 & _).
  destruct (_b64_encrypt_id (captcha_count st) o c4) as [cdn_id c5].
  cbn [fst] in *. subst solution_id cdn_id.
  eexists salt1, _, salt2, _, solution, now. split; [| reflexivity].
  split; [| done]. rewrite Hlen.
  specialize (Hn ltac:(done)). apply elem_of_cons in Hn as [-> | Hn]; [by left |].
  apply elem_of_cons in Hn as [-> | Hn]; [by right |]. by apply elem_of_nil in Hn.
Qed.

End Cases.

(** ** The invariant of the record store *)

Lemma issued_before_mono n m k : n <= m -> issued_before n k -> issued_before m k.
Proof. intros Hnm (c & salt & t & Hc & ->). exists c, salt, t. split; [lia | done]. Qed.

Lemma issued_before_fresh n k salt t : issued_before n k -> k <> handle_of n salt t.
Proof.
  intros (c & salt' & t' & Hc & ->) H. apply handle_of_counter in H. lia.
Qed.

Section Invariant.

Context {Image : Type}.
Variable cap_gen : string -> Eff.t Image.
Variable png : Image -> list Z.
Variable str_lower : string -> string.
Variable urljoin : string -> string -> string.

Implicit Types (st : flask_app Image) (rec : CdnRecord.t Image) (o : Eff.oracle).

Lemma consistent_empty c0 : consistent (FlaskApp (Image := Image) ∅ ∅ c0).
Proof.
  split; [apply map_Forall_empty |]. split; [apply map_Forall_empty |].
  intros k rec s H. cbn in H. by rewrite lookup_empty in H.
Qed.

Lemma consistent_api_captcha rq st o :
  consistent st -> consistent (Eff.run (api_captcha urljoin rq st) o).2.
Proof.
  intros (Hcdn & Hsol & Hpair).
  destruct (decide (1 <= default 5 (maxCdnAccess rq) <= 19
                    /\ 1 <= default 5 (maxSolutionCheck rq) <= 19)) as [[Hc Hs] | Hbad].
  - destruct (api_captcha_detail urljoin rq st o Hc Hs)
      as (salt1 & t1 & salt2 & t2 & sol & now & Hshape & Hrun).
    cbv zeta in Hrun. rewrite Hrun. cbn [snd].
    set (sid := handle_of (captcha_count st) salt1 t1) in *.
    set (cid := handle_of (captcha_count st) salt2 t2) in *.
    assert (Hsid : issued_before (captcha_count st + 1) sid)
      by (exists (captcha_count st), salt1, t1; split; [lia | done]).
    assert (Hcid : issued_before (captcha_count st + 1) cid)
      by (exists (captcha_count st), salt2, t2; split; [lia | done]).
    split; [| split]; cbn [captcha_cdn captchas_solution captcha_count].
    + apply map_Forall_insert_2.
      * split; [| done]. unfold cdn_record_ok. cbn.
        split; [done |]. split; [lia |]. split; [done | exact Hshape].
      * eapply map_Forall_impl; [exact Hcdn |]. intros k rec (Hok & Hk & Hr). cbn beta.
        split; [done |]. split; eapply issued_before_mono; try eassumption; lia.
    + apply map_Forall_insert_2.
      * split; [| done]. unfold solution_record_ok. cbn.
        split; [done |]. split; [lia | exact Hshape].
      * eapply map_Forall_impl; [exact Hsol |]. intros k s (Hok & Hk). cbn beta.
        split; [done |]. eapply issued_before_mono; try eassumption; lia.
    + intros k rec s Hrec Hs'.
      apply lookup_insert_Some in Hrec as [[_ <-] | [_ Hrec]].
      * cbn in Hs'. rewrite lookup_insert_eq in Hs'. by injection Hs' as <-.
      * destruct (Hcdn k rec Hrec) as (_ & _ & Href).
        rewrite lookup_insert_ne in Hs'.
        -- by eapply Hpair.
        -- intros Heq. by eapply issued_before_fresh.
  - destruct (api_captcha_rejects urljoin rq st o Hbad) as (text & ->). done.
Qed.

Lemma consistent_get_img key st o :
  consistent st -> consistent (Eff.run (get_img cap_gen png key st) o).2.
Proof.
  intros (Hcdn & Hsol & Hpair).
  destruct (get_img_cases cap_gen png key st o)
    as [[_ ->] | [(rec & Hrec & Hlt & ->) | [(rec & s & Hrec & Hge & Hs & ->) | (rec & _ & _ & _ & ->)]]];
    try done; cbn [snd].
  - destruct (Hcdn key rec Hrec) as ((Hmax & Hcount & Himg & Hshape) & Hk & Href).
    split; [| split]; cbn [captcha_cdn captchas_solution captcha_count]; [| done |].
    + apply map_Forall_insert_2; [| done].
      split; [| done]. unfold cdn_record_ok. cbn.
      split; [done |]. split; [lia |]. split; [| done]. split; [done | lia].
    + intros k rec' s Hrec' Hs.
      apply lookup_insert_Some in Hrec' as [[_ <-] | [_ Hrec']]; [| by eapply Hpair].
      cbn in Hs |- *. by eapply Hpair.
  - split; [| split]; cbn [captcha_cdn captchas_solution captcha_count].
    + by apply map_Forall_delete.
    + by apply map_Forall_delete.
    + intros k rec' s' Hrec' Hs'.
      apply lookup_delete_Some in Hrec' as [_ Hrec'].
      apply lookup_delete_Some in Hs' as [_ Hs']. by eapply Hpair.
Qed.

Lemma consistent_check_solution sid attempt st :
  consistent st -> consistent (check_solution str_lower sid attempt st).2.
Proof.
  intros (Hcdn & Hsol & Hpair).
  destruct (check_solution_cases str_lower sid attempt st)
    as [[_ ->] | [(srec & Hrec & Hge & ->) | (srec & r & Hrec & Hlt & -> & _)]];
    try done; cbn [snd].
  - split; [| split]; cbn [captcha_cdn captchas_solution captcha_count]; [done | |].
    + by apply map_Forall_delete.
    + intros k rec s Hk Hs. apply lookup_delete_Some in Hs as [_ Hs]. by eapply Hpair.
  - destruct (Hsol sid srec Hrec) as ((Hmax & Hcount & Hshape) & Hk).
    split; [| split]; cbn [captcha_cdn captchas_solution captcha_count]; [done | |].
    + apply map_Forall_insert_2; [| done].
      split; [| done]. unfold solution_record_ok. cbn. split; [done |]. split; [lia | done].
    + intros k rec s Hrec' Hs.
      apply lookup_insert_Some in Hs as [[Heq <-] | [_ Hs]]; [| by eapply Hpair].
      cbn. eapply Hpair; [exact Hrec' |]. by rewrite <- Heq.
Qed.

Lemma consistent_serve rq o st :
  consistent st -> consistent (serve cap_gen png str_lower urljoin rq o st).2.
Proof.
  destruct rq as [body | key | sid attempt]; cbn [serve].
  - apply consistent_api_captcha.
  - apply consistent_get_img.
  - apply consistent_check_solution.
Qed.

Lemma consistent_serve_all rqs st :
  consistent st -> consistent (serve_all cap_gen png str_lower urljoin rqs st).2.
Proof.
  revert st. induction rqs as [| [rq o] rqs IH]; intros st Hst; [done |].
  cbn [serve_all]. pose proof (consistent_serve rq o st Hst) as H1.
  destruct (serve cap_gen png str_lower urljoin rq o st) as [r st1].
  specialize (IH st1 H1).
  by destruct (serve_all cap_gen png str_lower urljoin rqs st1) as [rs st2].
Qed.

End Invariant.

(** ** Runs of fetches and checks from any state *)

Section Runs.

Context {Image : Type}.
Variable cap_gen : string -> Eff.t Image.
Variable png : Image -> list Z.
Variable str_lower : string -> string.
Variable urljoin : string -> string -> string.

Implicit Types (st : flask_app Image) (rec : CdnRecord.t Image) (o : Eff.oracle).



(** Fetches against a record at its limit whose solution record is gone *)
Lemma retrieve_all_orphan key os st rec :
  captcha_cdn st !! key = Some rec ->
  CdnRecord.max_cdn_access rec <= CdnRecord.cdn_accessed_number rec ->
  captchas_solution st !! CdnRecord.solution_id rec = None ->
  retrieve_all cap_gen png key os st = (replicate (length os) cdn_key_not_found, st).
Proof.
  intros Hrec Hge Hnone. induction os as [| o os IH]; [done |].
  cbn [retrieve_all]. rewrite (get_img_orphan cap_gen png key st rec) by done. by rewrite IH.
Qed.

Lemma json_body c b c' b' : Json c b = Json c' b' -> b = b'.
Proof.
  intros H. exact (f_equal (fun r => match r with Json _ x => x | File _ _ => b end) H).
Qed.

Lemma verdict_inj cs ci cs' ci' : verdict cs ci = verdict cs' ci' -> cs = cs' /\ ci = ci'.
Proof.
  intros H. split.
  - apply (f_equal (fun m => m !! "case_sensitive_correct")) in H.
    unfold verdict in H. rewrite !lookup_insert_eq in H. congruence.
  - apply (f_equal (fun m => m !! "case_insensitive_correct")) in H.
    unfold verdict in H. rewrite !(lookup_insert_ne _ "case_sensitive_correct") in H by done.
    rewrite !lookup_insert_eq in H. congruence.
Qed.

End Runs.

(** ** Properties of the lifecycle beyond the claims *)

Section Beyond.

Context {Image : Type}.
Variable cap_gen : string -> Eff.t Image.
Variable png : Image -> list Z.
Variable str_lower : string -> string.
Variable urljoin : string -> string -> string.

Implicit Types (st : flask_app Image) (rec : CdnRecord.t Image) (o : Eff.oracle).

(** With int limits: in every state reached from empty tables by any
    sequence of requests, every image record and every solution record has
    its limit in [1, 19] and its counter between 0 and the limit
    ([raw_serve_all_within_limits] is the statement for limits of any JSON
    type); an image record
    holds an image exactly when it has been fetched at least once; every
    stored solution is four or five characters of the alphabet. *)
Theorem serve_all_within_limits c0 rqs :
  let st := (serve_all cap_gen png str_lower urljoin rqs (FlaskApp ∅ ∅ c0)).2 in
  (forall k rec, captcha_cdn st !! k = Some rec ->
     1 <= CdnRecord.max_cdn_access rec <= 19
     /\ 0 <= CdnRecord.cdn_accessed_number rec <= CdnRecord.max_cdn_access rec
     /\ (CdnRecord.image rec = None <-> CdnRecord.cdn_accessed_number rec = 0)
     /\ solution_shape (CdnRecord.solution rec))
  /\ (forall k s, captchas_solution st !! k = Some s ->
     1 <= SolutionRecord.max_solution_check s <= 19
     /\ 0 <= SolutionRecord.solution_checked s <= SolutionRecord.max_solution_check s
     /\ solution_shape (SolutionRecord.solution s)).
Proof.
  intros st.
  destruct (consistent_serve_all cap_gen png str_lower urljoin rqs (FlaskApp ∅ ∅ c0)
              (consistent_empty c0)) as (Hcdn & Hsol & _).
  fold st in Hcdn, Hsol. split.
  - intros k rec Hrec. by destruct (Hcdn k rec Hrec) as (Hok & _).
  - intros k s Hs. by destruct (Hsol k s Hs) as (Hok & _).
Qed.

(** X5.  In a state reached from empty tables, a successful Issue never
    overwrites: neither of its two handles is a key of its table before the
    call, and every other key of either table keeps its record. *)
Theorem issue_never_overwrites c0 rqs rq o :
  1 <= default 5 (maxCdnAccess rq) <= 19 ->
  1 <= default 5 (maxSolutionCheck rq) <= 19 ->
  let st := (serve_all cap_gen png str_lower urljoin rqs (FlaskApp ∅ ∅ c0)).2 in
  exists cdn_id solution_id st1,
    issued urljoin rq st o cdn_id solution_id st1
    /\ captcha_cdn st !! cdn_id = None
    /\ captchas_solution st !! solution_id = None
    /\ (forall k, k <> cdn_id -> captcha_cdn st1 !! k = captcha_cdn st !! k)
    /\ (forall k, k <> solution_id -> captchas_solution st1 !! k = captchas_solution st !! k).
Proof.
  intros Hc Hs st.
  destruct (consistent_serve_all cap_gen png str_lower urljoin rqs (FlaskApp ∅ ∅ c0)
              (consistent_empty c0)) as (Hcdn & Hsol & _).
  fold st in Hcdn, Hsol.
  destruct (api_captcha_detail urljoin rq st o Hc Hs)
    as (salt1 & t1 & salt2 & t2 & sol & now & _ & Hrun).
  cbv zeta in Hrun. eexists _, _, _. split; [exact Hrun |].
  split; [| split; [| split]].
  - destruct (captcha_cdn st !! handle_of (captcha_count st) salt2 t2) as [rec |] eqn:Hrec;
      [| done].
    destruct (Hcdn _ rec Hrec) as (_ & Hk & _).
    exfalso. by apply (issued_before_fresh _ _ salt2 t2 Hk).
  - destruct (captchas_solution st !! handle_of (captcha_count st) salt1 t1) as [s |] eqn:Hrec;
      [| done].
    destruct (Hsol _ s Hrec) as (_ & Hk).
    exfalso. by apply (issued_before_fresh _ _ salt1 t1 Hk).
  - intros k Hk. cbn. by rewrite lookup_insert_ne.
  - intros k Hk. cbn. by rewrite lookup_insert_ne.
Qed.

(** X7.  In a state reached from empty tables, an image record and the
    solution record its [solution_id] names hold the same solution. *)
Theorem serve_all_paired c0 rqs k rec s :
  let st := (serve_all cap_gen png str_lower urljoin rqs (FlaskApp ∅ ∅ c0)).2 in
  captcha_cdn st !! k = Some rec ->
  captchas_solution st !! CdnRecord.solution_id rec = Some s ->
  SolutionRecord.solution s = CdnRecord.solution rec.
Proof.
  intros st Hrec Hs.
  destruct (consistent_serve_all cap_gen png str_lower urljoin rqs (FlaskApp ∅ ∅ c0)
              (consistent_empty c0)) as (_ & _ & Hpair).
  by eapply Hpair.
Qed.

(** X8.  A fetch answers with a PNG, the 418 body or the 400 body and
    nothing else.  It never changes the issue counter nor the record of
    another handle; it changes the solution table only when it answers 418,
    and nothing at all when it answers 400. *)
Theorem get_img_frame key st o :
  let out := Eff.run (get_img cap_gen png key st) o in
  (served out.1 \/ out.1 = cdn_exhausted \/ out.1 = cdn_key_not_found)
  /\ captcha_count out.2 = captcha_count st
  /\ (forall k, k <> key -> captcha_cdn out.2 !! k = captcha_cdn st !! k)
  /\ (out.1 <> cdn_exhausted -> captchas_solution out.2 = captchas_solution st)
  /\ (out.1 = cdn_key_not_found -> out.2 = st).
Proof.
  intros out. subst out.
  destruct (get_img_cases cap_gen png key st o)
    as [[_ ->] | [(rec & _ & _ & ->) | [(rec & s & _ & _ & _ & ->) | (rec & _ & _ & _ & ->)]]];
    cbn [fst snd captcha_count captcha_cdn captchas_solution].
  - split; [by right; right |]. by repeat split.
  - split; [left; by eexists |]. split; [done |].
    split; [intros k Hk; by rewrite lookup_insert_ne |]. by split.
  - split; [by right; left |]. split; [done |].
    split; [intros k Hk; by rewrite lookup_delete_ne |]. by split.
  - split; [by right; right |]. by repeat split.
Qed.

(** X11.  A check never touches the image table nor the issue counter, and
    leaves the record of every other solution handle as it was. *)
Theorem check_solution_touches_one sid attempt st :
  let out := check_solution str_lower sid attempt st in
  captcha_cdn out.2 = captcha_cdn st
  /\ captcha_count out.2 = captcha_count st
  /\ (forall k, k <> sid -> captchas_solution out.2 !! k = captchas_solution st !! k)
  /\ (out.1 = solution_id_not_found -> out.2 = st).
Proof.
  intros out. subst out.
  destruct (check_solution_cases str_lower sid attempt st)
    as [[_ ->] | [(srec & _ & _ & ->) | (srec & r & _ & _ & -> & Hr)]];
    cbn [fst snd captcha_count captcha_cdn captchas_solution].
  - by repeat split.
  - split; [done |]. split; [done |].
    split; [intros k Hk; by rewrite lookup_delete_ne |]. done.
  - split; [done |]. split; [done |].
    split; [intros k Hk; by rewrite lookup_insert_ne |].
    destruct Hr as [[_ ->] | (a & _ & _ & ->)]; done.
Qed.


(** X13.  A verdict never says the attempt matches exactly but not when case
    is ignored. *)
Theorem verdict_exact_implies_folded sid attempt st cs ci :
  (check_solution str_lower sid attempt st).1 = Json 200 (verdict cs ci) ->
  cs = true -> ci = true.
Proof.
  intros Hout Hcs.
  destruct (check_solution_cases str_lower sid attempt st)
    as [[_ Hrun] | [(srec & _ & _ & Hrun) | (srec & r & _ & _ & Hrun & Hr)]];
    rewrite Hrun in Hout; cbn [fst] in Hout; try discriminate.
  destruct Hr as [[_ ->] | (a & _ & _ & ->)]; [discriminate |].
  apply json_body, verdict_inj in Hout as [<- <-].
  apply String.eqb_eq in Hcs as ->. apply String.eqb_refl.
Qed.

(** X4.  A successful Issue adds one image record and one solution record
    that share one solution of four or five alphabet characters; both start
    with counter 0 and the limits asked for, the image record without an
    image and naming the solution handle; both handles are built from the
    issue counter before the call, which goes up by one. *)
Theorem api_captcha_effect rq st o :
  1 <= default 5 (maxCdnAccess rq) <= 19 ->
  1 <= default 5 (maxSolutionCheck rq) <= 19 ->
  exists cdn_id solution_id st1 solution expiry,
    issued urljoin rq st o cdn_id solution_id st1
    /\ captcha_cdn st1 !! cdn_id
         = Some (CdnRecord.Make solution None expiry 0 (default 5 (maxCdnAccess rq))
                   solution_id)
    /\ captchas_solution st1 !! solution_id
         = Some (SolutionRecord.Make solution (default 5 (maxSolutionCheck rq)) 0)
    /\ solution_shape solution
    /\ captcha_count st1 = captcha_count st + 1
    /\ (exists salt t, String.length salt = 10%nat
                       /\ cdn_id = handle_of (captcha_count st) salt t)
    /\ (exists salt t, String.length salt = 10%nat
                       /\ solution_id = handle_of (captcha_count st) salt t)
    /\ expiry = Eff.ticks o 1 + 5 * 60 * 1000000.
Proof.
  intros Hcdn Hsol. unfold issued, Eff.run, api_captcha. cbv zeta.
  destruct (_ || _) eqn:E1.
  { apply orb_prop in E1 as [? | ?]; lia. }
  destruct (_ || _) eqn:E2 in |- *.
  { apply orb_prop in E2 as [? | ?]; lia. }
  unfold Eff.bind.
  destruct (b64_encrypt_id_handle (captcha_count st) o Eff.start) as (salt1 & Hh1 & Hl1 & _).
  pose proof (b64_encrypt_id_cursor (captcha_count st) o Eff.start) as Hc1.
  destruct (_b64_encrypt_id (captcha_count st) o Eff.start) as [solution_id c1].
  pose proof (choice_in 4%nat [4; 5]%nat o c1) as Hn.
  assert (Hc2 : Eff.ticked (Eff.choice 4%nat [4; 5]%nat o c1).2 = Eff.ticked c1) by done.
  destruct (Eff.choice 4%nat [4; 5]%nat o c1) as [n c2].
  pose proof (id_generator_length n o c2) as Hlen.
  pose proof (id_generator_chars n o c2) as Hch.
  pose proof (id_generator_cursor n o c2) as Hc3.
  destruct (_id_generator n o c2) as [solution c3].
  unfold Eff.utcnow at 1.
  destruct (b64_encrypt_id_handle (captcha_count st) o
              (Eff.Cursor (Eff.drawn c3) (S (Eff.ticked c3)))) as (salt2 & Hh2 & Hl2 & _).
  destruct (_b64_encrypt_id (captcha_count st) o _) as [cdn_id c5].
  cbn [fst snd Eff.ret] in *. subst c1 c3. cbn [Eff.ticked] in *.
  eexists cdn_id, solution_id, _, solution, _. split; [reflexivity |].
  cbn [captcha_cdn captchas_solution captcha_count].
  split; [apply lookup_insert_eq |]. split; [apply lookup_insert_eq |].
  split.
  { split; [| done]. rewrite Hlen.
    specialize (Hn ltac:(done)). apply elem_of_cons in Hn as [-> | Hn]; [by left |].
    apply elem_of_cons in Hn as [-> | Hn]; [by right |]. by apply elem_of_nil in Hn. }
  split; [done |]. split; [by exists salt2; eexists |].
  split; [by exists salt1; eexists |]. by rewrite Hc2.
Qed.

(** X9.  From any state whose image record has [n] fetches left and whose
    paired solution record is present, exactly the next [n] fetches are
    served, the one after answers 418 and removes both records, and every
    later fetch answers 400. *)
Theorem retrieve_remaining key st rec (srec : SolutionRecord.t) os o' os' :
  captcha_cdn st !! key = Some rec ->
  captchas_solution st !! CdnRecord.solution_id rec = Some srec ->
  CdnRecord.cdn_accessed_number rec + Z.of_nat (length os) = CdnRecord.max_cdn_access rec ->
  exists rs sa sb,
    retrieve_all cap_gen png key os st = (rs, sa)
    /\ length rs = length os
    /\ Forall served rs
    /\ Eff.run (get_img cap_gen png key sa) o' = (cdn_exhausted, sb)
    /\ captcha_cdn sb !! key = None
    /\ captchas_solution sb !! CdnRecord.solution_id rec = None
    /\ retrieve_all cap_gen png key os' sb
         = (replicate (length os') cdn_key_not_found, sb).
Proof.
  intros Hrec Hsrec Hlen.
  destruct (retrieve_all_below cap_gen png key os st rec Hrec) as (sa & Hrun & Hsols & _ & Hsa);
    [lia |].
  eexists _, sa, _. split; [exact Hrun |].
  split; [by rewrite length_replicate |].
  split; [apply Forall_replicate; by eexists |].
  split.
  { eapply get_img_over; [exact Hsa | cbn; lia |]. cbn. rewrite Hsols. exact Hsrec. }
  cbn. split; [apply lookup_delete_eq |]. split; [apply lookup_delete_eq |].
  apply retrieve_all_missing. apply lookup_delete_eq.
Qed.

(** X10.  Once the paired solution record is gone, fetching can no longer
    delete the image record: the fetches left within its limit are served,
    and every fetch after them answers 400 with the record still in the
    table. *)
Theorem retrieve_unpaired key st rec os os' :
  captcha_cdn st !! key = Some rec ->
  captchas_solution st !! CdnRecord.solution_id rec = None ->
  CdnRecord.cdn_accessed_number rec + Z.of_nat (length os) = CdnRecord.max_cdn_access rec ->
  exists rs sa,
    retrieve_all cap_gen png key os st = (rs, sa)
    /\ length rs = length os
    /\ Forall served rs
    /\ retrieve_all cap_gen png key os' sa
         = (replicate (length os') cdn_key_not_found, sa)
    /\ is_Some (captcha_cdn sa !! key).
Proof.
  intros Hrec Hnone Hlen.
  destruct (retrieve_all_below cap_gen png key os st rec Hrec) as (sa & Hrun & Hsols & _ & Hsa);
    [lia |].
  eexists _, sa. split; [exact Hrun |].
  split; [by rewrite length_replicate |].
  split; [apply Forall_replicate; by eexists |].
  split; [| by eexists].
  eapply retrieve_all_orphan; [exact Hsa | cbn; lia |]. cbn. by rewrite Hsols.
Qed.

End Beyond.

(** ** The handle codec beyond the claims *)

(** X1.  A handle is lossless: decoding it as base64 gives back the text
    [count.salt.SS], where the salt is ten alphabet characters and [SS] is
    the two-digit second of the clock reading (the [[-5:]] slice removes
    nothing). *)
Theorem b64_encrypt_id_decodes n o c :
  exists salt,
    String.length salt = 10%nat
    /\ Forall (fun ch => ch ∈ chars alphabet) (chars salt)
    /\ b64decode (chars (_b64_encrypt_id n o c).1)
       = utf8_bytes (str_of_int n +:+ "." +:+ salt +:+ "."
                     +:+ strftime_S (Eff.ticks o (Eff.ticked c))).
Proof.
  destruct (b64_encrypt_id_handle n o c) as (salt & -> & Hlen & Hch).
  exists salt. split; [done |]. split; [done |].
  unfold handle_of. rewrite chars_decode. apply b64_round_trip, utf8_bytes_range.
Qed.

(** X2.  Handles built from different values of the issue counter differ,
    whatever the entropy and the clock. *)
Theorem handles_differ_by_counter n1 n2 o1 c1 o2 c2 :
  n1 <> n2 -> (_b64_encrypt_id n1 o1 c1).1 <> (_b64_encrypt_id n2 o2 c2).1.
Proof.
  intros Hne.
  destruct (b64_encrypt_id_handle n1 o1 c1) as (salt1 & -> & _).
  destruct (b64_encrypt_id_handle n2 o2 c2) as (salt2 & -> & _).
  intros H. by apply handle_of_counter in H.
Qed.

Lemma b64encode_length bs : length (b64encode bs) = (4 * ((length bs + 2) / 3))%nat.
Proof.
  induction bs as [| a | a b | a b c rest IH] using triples_ind; try done.
  cbn [b64encode length]. rewrite IH.
  replace (S (S (S (length rest))) + 2)%nat with (length rest + 2 + 1 * 3)%nat by lia.
  rewrite Nat.div_add by done. lia.
Qed.

Lemma string_length_app s1 s2 :
  String.length (s1 +:+ s2) = (String.length s1 + String.length s2)%nat.
Proof. induction s1 as [| ch s1 IH]; simpl; [done | by f_equal]. Qed.

(** X3.  The handle is as long as base64 makes a text of
    [len(str(count)) + 14] bytes: four characters for every three bytes,
    the last group padded. *)
Theorem b64_encrypt_id_length n o c :
  String.length (_b64_encrypt_id n o c).1
    = (4 * ((String.length (str_of_int n) + 14 + 2) / 3))%nat.
Proof.
  destruct (b64_encrypt_id_handle n o c) as (salt & -> & Hlen & _).
  unfold handle_of. rewrite <- chars_length, chars_decode, b64encode_length.
  unfold utf8_bytes. rewrite length_map, chars_length.
  unfold handle_text. rewrite !string_length_app, Hlen. done.
Qed.

(** ** The arc overlay *)

Section ArcOverlay.

Context {canvas : Type}.
Variable im_size : canvas -> nat * nat.
Variable arc : canvas -> Z * Z * Z * Z -> Z -> Z -> string -> canvas.

Lemma add_noise_line_step size image o c :
  exists y,
    0 <= y < Z.of_nat size.2 + 10
    /\ add_noise_line arc size image o c
       = (arc image (-50, -50, Z.of_nat size.1 + 10, y) 0 360 "white",
          Eff.Cursor (S (Eff.drawn c)) (Eff.ticked c)).
Proof.
  unfold add_noise_line, Eff.choice, Eff.bind, Eff.randbelow, Eff.ret. cbn [fst snd].
  eexists. split; [| reflexivity].
  set (ys := map Z.of_nat (seq 0 (size.2 + 10))).
  assert (Hin : nth (Eff.draws o (Eff.drawn c) mod length ys) ys 0 ∈ ys).
  { apply list_elem_of_In, nth_In, Nat.mod_upper_bound.
    subst ys. rewrite length_map, length_seq. lia. }
  subst ys. apply list_elem_of_In, in_map_iff in Hin as (i & <- & Hi%in_seq). lia.
Qed.

Lemma add_noise_lines_loop size n : forall s image o c,
  exists ys,
    length ys = n
    /\ Forall (fun y => 0 <= y < Z.of_nat size.2 + 10) ys
    /\ (Noise.for_each (seq s n) (fun _ => add_noise_line arc size) image o c).1
       = fold_left (fun im y => arc im (-50, -50, Z.of_nat size.1 + 10, y) 0 360 "white")
                   ys image.
Proof.
  induction n as [| n IH]; intros s image o c.
  - by exists [].
  - cbn [seq Noise.for_each]. unfold Eff.bind at 1.
    destruct (add_noise_line_step size image o c) as (y & Hy & ->).
    destruct (IH (S s) (arc image (-50, -50, Z.of_nat size.1 + 10, y) 0 360 "white") o
                 (Eff.Cursor (S (Eff.drawn c)) (Eff.ticked c))) as (ys & Hlen & Hys & Hrun).
    exists (y :: ys). split; [cbn; by rewrite Hlen |]. split; [by constructor |].
    rewrite Hrun. done.
Qed.

(** X14.  [add_noise_lines] draws at most two arcs and nothing else: each
    is a full white arc in the box from (-50, -50) to (width + 10, y) with
    0 <= y < height + 10, the size being read once before the first arc. *)
Theorem add_noise_lines_arcs image o c :
  let w := Z.of_nat (im_size image).1 in
  let h := Z.of_nat (im_size image).2 in
  exists ys,
    (length ys <= 2)%nat
    /\ Forall (fun y => 0 <= y < h + 10) ys
    /\ (add_noise_lines im_size arc image o c).1
       = fold_left (fun im y => arc im (-50, -50, w + 10, y) 0 360 "white") ys image.
Proof.
  intros w h. unfold add_noise_lines. cbv zeta. unfold Eff.bind, Eff.randbelow.
  destruct (add_noise_lines_loop (im_size image) (Eff.draws o (Eff.drawn c) mod 3) 0%nat image o
              (Eff.Cursor (S (Eff.drawn c)) (Eff.ticked c))) as (ys & Hlen & Hys & Hrun).
  exists ys. split; [| by split].
  rewrite Hlen. pose proof (Nat.mod_upper_bound (Eff.draws o (Eff.drawn c)) 3). lia.
Qed.

End ArcOverlay.

(** ** Salt and pepper beyond the claims *)

(** X16.  [salt_and_pepper] takes exactly one draw per pixel,
    [width * height] in all, and never reads the clock. *)
Theorem salt_and_pepper_draws {pixel} (blank white : pixel) (img : Noise.image pixel)
    (probability : float) o c :
  (Noise.salt_and_pepper blank white img probability o c).2
    = Eff.Cursor (Eff.drawn c + Noise.width img * Noise.height img) (Eff.ticked c).
Proof.
  unfold Noise.salt_and_pepper. cbv zeta.
  destruct (raster_loop white img probability (Noise.height img) (Noise.width img) 0%nat
              (Noise.new pixel blank (Noise.mode img) (Noise.width img) (Noise.height img))
              o c) as (out & -> & _).
  done.
Qed.

(** The order on floats, as [SFcompare] decides it, is transitive. *)
Lemma SFltb_trans x y z : SFltb x y = true -> SFltb y z = true -> SFltb x z = true.
Proof.
  unfold SFltb.
  destruct x as [[] | [] | | [] mx ex], y as [[] | [] | | [] my ey], z as [[] | [] | | [] mz ez];
    cbn; try done;
    change (Pos.compare_cont Eq) with Pos.compare;
    repeat match goal with
           | |- context [Z.compare ?a ?b] => destruct (Z.compare_spec a b)
           | |- context [Pos.compare ?a ?b] => destruct (Pos.compare_spec a b)
           end; cbn; try done; lia.
Qed.

Lemma ltb_trans (a b p : float) :
  PrimFloat.ltb a b = true -> PrimFloat.ltb b p = true -> PrimFloat.ltb a p = true.
Proof. rewrite !ltb_spec. apply SFltb_trans. Qed.

Lemma levels_increasing i :
  (i < 10)%nat ->
  PrimFloat.ltb (nth i Noise.levels 0%float) (nth (S i) Noise.levels 0%float) = true.
Proof.
  intros Hi. do 10 (destruct i as [| i]; [by vm_compute |]). lia.
Qed.

Lemma whitening_downward p i j :
  (i <= j)%nat -> (j < 11)%nat ->
  PrimFloat.ltb (nth j Noise.levels 0%float) p = true ->
  PrimFloat.ltb (nth i Noise.levels 0%float) p = true.
Proof.
  intros Hij Hj. induction Hij as [| j Hij IH]; [done |].
  intros H. apply IH; [lia |].
  eapply ltb_trans; [apply levels_increasing; lia | exact H].
Qed.

Lemma filter_all {A} (P : A -> Prop) `{forall x, Decision (P x)} (l : list A) :
  Forall P l -> filter P l = l.
Proof.
  induction 1 as [| x l Hx _ IH]; [done |]. by rewrite filter_cons_True, IH.
Qed.

Lemma whitening_prefix p n :
  (n <= 11)%nat ->
  exists k, (k <= n)%nat
    /\ filter (fun i => Is_true (PrimFloat.ltb (nth i Noise.levels 0%float) p)) (seq 0 n)
       = seq 0 k.
Proof.
  induction n as [| n IH]; intros Hn; [by exists 0%nat |].
  rewrite seq_S, filter_app. cbn [Nat.add].
  destruct (PrimFloat.ltb (nth n Noise.levels 0%float) p) eqn:Hlt.
  - exists (S n). split; [done |].
    rewrite filter_cons_True by (by rewrite Hlt). rewrite filter_nil, seq_S.
    f_equal. apply filter_all, Forall_forall. intros i Hi%list_elem_of_In%in_seq.
    apply Is_true_true, (whitening_downward p i n); [lia | lia | done].
  - destruct IH as (k & Hk & ->); [lia |]. exists k. split; [lia |].
    rewrite filter_cons_False by (rewrite Hlt; exact id). by rewrite filter_nil, app_nil_r.
Qed.

(** X17.  Whatever the probability (any float, infinities and NaN
    included), the levels below it are the first [k] of the eleven for some
    [k]: a draw whitens the pixel exactly when its index is below [k], so
    the chance of a white pixel is always one of 0/11, 1/11, ..., 11/11. *)
Theorem whitening_draws_prefix (probability : float) :
  exists k,
    (k <= 11)%nat
    /\ Noise.whitening_draws probability = seq 0 k
    /\ forall i, (i < 11)%nat ->
         (PrimFloat.ltb (nth i Noise.levels 0%float) probability = true <-> (i < k)%nat).
Proof.
  destruct (whitening_prefix probability 11) as (k & Hk & Hdraws); [done |].
  exists k. split; [done |]. split; [exact Hdraws |].
  intros i Hi.
  assert (Hin : i ∈ seq 0 k <-> (i < k)%nat).
  { rewrite list_elem_of_In, in_seq. lia. }
  rewrite <- Hin, <- Hdraws, list_elem_of_filter, list_elem_of_In, in_seq, Is_true_true.
  split; [intros H; split; [done | lia] | by intros [H _]].
Qed.

(** ** Instances of the further properties *)

Lemma handles_differ_by_counter_witness :
  1 <> 2
  /\ (_b64_encrypt_id 1 Demo.oracle Eff.start).1 <> (_b64_encrypt_id 2 idle Eff.start).1.
Proof.
  assert (H : 1 <> 2) by lia.
  split; [exact H |].
  exact (handles_differ_by_counter 1 2 Demo.oracle Eff.start idle Eff.start H).
Defined.

Lemma issue_never_overwrites_witness :
  1 <= default 5 (maxCdnAccess Demo.single) <= 19
  /\ 1 <= default 5 (maxSolutionCheck Demo.single) <= 19
  /\ exists cdn_id solution_id st1,
       issued Demo.urljoin Demo.single demo_state idle cdn_id solution_id st1
       /\ captcha_cdn demo_state !! cdn_id = None
       /\ captchas_solution demo_state !! solution_id = None
       /\ (forall k, k <> cdn_id -> captcha_cdn st1 !! k = captcha_cdn demo_state !! k)
       /\ (forall k, k <> solution_id ->
             captchas_solution st1 !! k = captchas_solution demo_state !! k).
Proof.
  assert (H1 : 1 <= default 5 (maxCdnAccess Demo.single) <= 19) by (simpl; lia).
  assert (H2 : 1 <= default 5 (maxSolutionCheck Demo.single) <= 19) by (simpl; lia).
  split; [exact H1 |]. split; [exact H2 |].
  exact (issue_never_overwrites Demo.cap_gen Demo.png Demo.lower Demo.urljoin 0 demo_session
           Demo.single idle H1 H2).
Defined.

Lemma serve_all_paired_witness :
  captcha_cdn (serve_all Demo.cap_gen Demo.png Demo.lower Demo.urljoin demo_session
                 (FlaskApp ∅ ∅ 0)).2 !! Demo.cdn_id = Some demo_cdn_record
  /\ captchas_solution (serve_all Demo.cap_gen Demo.png Demo.lower Demo.urljoin demo_session
                 (FlaskApp ∅ ∅ 0)).2
       !! CdnRecord.solution_id demo_cdn_record = Some demo_solution_record
  /\ SolutionRecord.solution demo_solution_record = CdnRecord.solution demo_cdn_record.
Proof.
  assert (H1 : captcha_cdn (serve_all Demo.cap_gen Demo.png Demo.lower Demo.urljoin demo_session
                 (FlaskApp ∅ ∅ 0)).2 !! Demo.cdn_id = Some demo_cdn_record)
    by (vm_compute; reflexivity).
  assert (H2 : captchas_solution (serve_all Demo.cap_gen Demo.png Demo.lower Demo.urljoin demo_session
                 (FlaskApp ∅ ∅ 0)).2
                 !! CdnRecord.solution_id demo_cdn_record = Some demo_solution_record)
    by (vm_compute; reflexivity).
  split; [exact H1 |]. split; [exact H2 |].
  exact (serve_all_paired Demo.cap_gen Demo.png Demo.lower Demo.urljoin 0 demo_session
           Demo.cdn_id demo_cdn_record demo_solution_record H1 H2).
Defined.


Lemma verdict_exact_implies_folded_witness :
  (check_solution Demo.lower Demo.solution_id (Some "GPWdk") Demo.checking).1
    = Json 200 (verdict true true)
  /\ true = true.
Proof.
  assert (H1 : (check_solution Demo.lower Demo.solution_id (Some "GPWdk") Demo.checking).1
               = Json 200 (verdict true true)) by (vm_compute; reflexivity).
  split; [exact H1 |].
  exact (verdict_exact_implies_folded Demo.lower Demo.solution_id (Some "GPWdk")
           Demo.checking true true H1 eq_refl).
Defined.

Lemma api_captcha_effect_witness :
  1 <= default 5 (maxCdnAccess Demo.request) <= 19
  /\ 1 <= default 5 (maxSolutionCheck Demo.request) <= 19
  /\ exists cdn_id solution_id st1 solution expiry,
       issued Demo.urljoin Demo.request Demo.empty Demo.oracle cdn_id solution_id st1
       /\ captcha_cdn st1 !! cdn_id
            = Some (CdnRecord.Make solution None expiry 0
                      (default 5 (maxCdnAccess Demo.request)) solution_id)
       /\ captchas_solution st1 !! solution_id
            = Some (SolutionRecord.Make solution
                      (default 5 (maxSolutionCheck Demo.request)) 0)
       /\ solution_shape solution
       /\ captcha_count st1 = captcha_count Demo.empty + 1
       /\ (exists salt t, String.length salt = 10%nat
                          /\ cdn_id = handle_of (captcha_count Demo.empty) salt t)
       /\ (exists salt t, String.length salt = 10%nat
                          /\ solution_id = handle_of (captcha_count Demo.empty) salt t)
       /\ expiry = Eff.ticks Demo.oracle 1 + 5 * 60 * 1000000.
Proof.
  assert (H1 : 1 <= default 5 (maxCdnAccess Demo.request) <= 19) by (simpl; lia).
  assert (H2 : 1 <= default 5 (maxSolutionCheck Demo.request) <= 19) by (simpl; lia).
  split; [exact H1 |]. split; [exact H2 |].
  exact (api_captcha_effect (Image := list Z) Demo.urljoin Demo.request Demo.empty
           Demo.oracle H1 H2).
Defined.

Lemma retrieve_remaining_witness :
  captcha_cdn demo_single !! Demo.cdn_id = Some demo_fresh_record
  /\ captchas_solution demo_single !! CdnRecord.solution_id demo_fresh_record
       = Some (SolutionRecord.Make "GPWdk" 1 0)
  /\ CdnRecord.cdn_accessed_number demo_fresh_record + Z.of_nat (length [Demo.oracle])
     = CdnRecord.max_cdn_access demo_fresh_record
  /\ exists rs sa sb,
       retrieve_all Demo.cap_gen Demo.png Demo.cdn_id [Demo.oracle] demo_single = (rs, sa)
       /\ length rs = length [Demo.oracle]
       /\ Forall served rs
       /\ Eff.run (get_img Demo.cap_gen Demo.png Demo.cdn_id sa) idle = (cdn_exhausted, sb)
       /\ captcha_cdn sb !! Demo.cdn_id = None
       /\ captchas_solution sb !! CdnRecord.solution_id demo_fresh_record = None
       /\ retrieve_all Demo.cap_gen Demo.png Demo.cdn_id [idle] sb
            = (replicate (length [idle]) cdn_key_not_found, sb).
Proof.
  assert (H1 : captcha_cdn demo_single !! Demo.cdn_id = Some demo_fresh_record)
    by (vm_compute; reflexivity).
  assert (H2 : captchas_solution demo_single !! CdnRecord.solution_id demo_fresh_record
               = Some (SolutionRecord.Make "GPWdk" 1 0)) by (vm_compute; reflexivity).
  assert (H3 : CdnRecord.cdn_accessed_number demo_fresh_record
                 + Z.of_nat (length [Demo.oracle])
               = CdnRecord.max_cdn_access demo_fresh_record) by reflexivity.
  split; [exact H1 |]. split; [exact H2 |]. split; [exact H3 |].
  exact (retrieve_remaining Demo.cap_gen Demo.png Demo.cdn_id demo_single demo_fresh_record
           (SolutionRecord.Make "GPWdk" 1 0) [Demo.oracle] idle [idle] H1 H2 H3).
Defined.

Lemma retrieve_unpaired_witness :
  captcha_cdn demo_unverifiable !! Demo.cdn_id = Some demo_fresh_record
  /\ captchas_solution demo_unverifiable !! CdnRecord.solution_id demo_fresh_record = None
  /\ CdnRecord.cdn_accessed_number demo_fresh_record + Z.of_nat (length [Demo.oracle])
     = CdnRecord.max_cdn_access demo_fresh_record
  /\ exists rs sa,
       retrieve_all Demo.cap_gen Demo.png Demo.cdn_id [Demo.oracle] demo_unverifiable
         = (rs, sa)
       /\ length rs = length [Demo.oracle]
       /\ Forall served rs
       /\ retrieve_all Demo.cap_gen Demo.png Demo.cdn_id [idle; idle] sa
            = (replicate (length [idle; idle]) cdn_key_not_found, sa)
       /\ is_Some (captcha_cdn sa !! Demo.cdn_id).
Proof.
  assert (H1 : captcha_cdn demo_unverifiable !! Demo.cdn_id = Some demo_fresh_record)
    by (vm_compute; reflexivity).
  assert (H2 : captchas_solution demo_unverifiable
                 !! CdnRecord.solution_id demo_fresh_record = None)
    by (vm_compute; reflexivity).
  assert (H3 : CdnRecord.cdn_accessed_number demo_fresh_record
                 + Z.of_nat (length [Demo.oracle])
               = CdnRecord.max_cdn_access demo_fresh_record) by reflexivity.
  split; [exact H1 |]. split; [exact H2 |]. split; [exact H3 |].
  exact (retrieve_unpaired Demo.cap_gen Demo.png Demo.cdn_id demo_unverifiable
           demo_fresh_record [Demo.oracle] [idle; idle] H1 H2 H3).
Defined.

(** * The handlers over raw JSON limits *)

(** ** Comparisons *)

Lemma raw_ge_spec x n :
  Raw.ge x n = true <->
  match x with
  | Raw.Int m => n <= m
  | Raw.Float q => (inject_Z n <= q)%Q
  | Raw.Infinity negative => negative = false
  | Raw.NaN => False
  end.
Proof.
  destruct x as [m | q | [] |]; cbn.
  - rewrite Z.geb_leb. apply Z.leb_le.
  - apply Qle_bool_iff.
  - done.
  - done.
  - done.
Qed.

Lemma raw_le_spec x n :
  Raw.le x n = true <->
  match x with
  | Raw.Int m => m <= n
  | Raw.Float q => (q <= inject_Z n)%Q
  | Raw.Infinity negative => negative = true
  | Raw.NaN => False
  end.
Proof.
  destruct x as [m | q | [] |]; cbn.
  - apply Z.leb_le.
  - apply Qle_bool_iff.
  - done.
  - done.
  - done.
Qed.

Lemma raw_out_of_range_spec x :
  Raw.ge x 20 || Raw.le x 0 = true <-> Raw.out_of_range x.
Proof.
  rewrite orb_true_iff, raw_ge_spec, raw_le_spec.
  destruct x as [m | q | [] |]; cbn; try tauto; (split; [done | intros _; auto]).
Qed.

Lemma raw_out_of_range_dec x : {Raw.out_of_range x} + {~ Raw.out_of_range x}.
Proof.
  destruct (Raw.ge x 20 || Raw.le x 0) eqn:E.
  - left. by apply raw_out_of_range_spec.
  - right. intros H%raw_out_of_range_spec. congruence.
Qed.


(** ** Issue *)

Section RawIssue.

Context {Image : Type}.
Variable urljoin : string -> string -> string.

Implicit Types (st : Raw.flask_app Image) (o : Eff.oracle).

Lemma raw_api_captcha_type_error rq st o :
  Raw.numeric (default (Raw.Num (Raw.Int 5)) (Raw.maxCdnAccess rq)) = None
  \/ (exists x, Raw.numeric (default (Raw.Num (Raw.Int 5)) (Raw.maxCdnAccess rq)) = Some x
                /\ ~ Raw.out_of_range x
                /\ Raw.numeric (default (Raw.Num (Raw.Int 5)) (Raw.maxSolutionCheck rq)) = None) ->
  Eff.run (Raw.api_captcha urljoin rq st) o = (Raw.TypeError, st).
Proof.
  unfold Eff.run, Raw.api_captcha. cbv zeta. intros [-> | (x & -> & Hx & ->)]; [done |].
  destruct (Raw.ge x 20 || Raw.le x 0) eqn:E; [| done].
  by apply raw_out_of_range_spec in E.
Qed.

Lemma raw_api_captcha_rejects rq st o x :
  Raw.numeric (default (Raw.Num (Raw.Int 5)) (Raw.maxCdnAccess rq)) = Some x ->
  Raw.out_of_range x
  \/ (exists y, Raw.numeric (default (Raw.Num (Raw.Int 5)) (Raw.maxSolutionCheck rq)) = Some y
                /\ Raw.out_of_range y) ->
  exists text,
    Eff.run (Raw.api_captcha urljoin rq st) o
      = (Raw.Answer (Json 400 (error_body 400 "error" text)), st).
Proof.
  unfold Eff.run, Raw.api_captcha. cbv zeta. intros -> H.
  destruct (Raw.ge x 20 || Raw.le x 0) eqn:E; [by eexists |].
  destruct H as [H%raw_out_of_range_spec | (y & -> & H%raw_out_of_range_spec)]; [congruence |].
  rewrite H. by eexists.
Qed.

Lemma raw_api_captcha_accepts rq st o x y :
  Raw.numeric (default (Raw.Num (Raw.Int 5)) (Raw.maxCdnAccess rq)) = Some x ->
  Raw.numeric (default (Raw.Num (Raw.Int 5)) (Raw.maxSolutionCheck rq)) = Some y ->
  ~ Raw.out_of_range x ->
  ~ Raw.out_of_range y ->
  exists cdn_id solution_id solution expiry,
    solution_shape solution
    /\ Eff.run (Raw.api_captcha urljoin rq st) o =
      (Raw.Answer (Json 200 (issued_body urljoin (Raw.host_url rq) cdn_id solution_id)),
       Raw.FlaskApp
         (<[cdn_id := Raw.CdnRecord.Make solution None expiry 0 x solution_id]>
            (Raw.captcha_cdn st))
         (<[solution_id := Raw.SolutionRecord.Make solution y 0]> (Raw.captchas_solution st))
         (Raw.captcha_count st + 1)).
Proof.
  intros Hx Hy Hxr Hyr. unfold Eff.run, Raw.api_captcha. cbv zeta. rewrite Hx, Hy.
  destruct (Raw.ge x 20 || Raw.le x 0) eqn:E1.
  { by apply raw_out_of_range_spec in E1. }
  destruct (Raw.ge y 20 || Raw.le y 0) eqn:E2.
  { by apply raw_out_of_range_spec in E2. }
  unfold Eff.bind.
  destruct (_b64_encrypt_id (Raw.captcha_count st) o Eff.start) as [solution_id c1].
  pose proof (choice_in 4%nat [4; 5]%nat o c1) as Hn.
  destruct (Eff.choice 4%nat [4; 5]%nat o c1) as [n c2].
  pose proof (id_generator_length n o c2) as Hlen.
  pose proof (id_generator_chars n o c2) as Hch.
  destruct (_id_generator n o c2) as [solution c3].
  destruct (Eff.utcnow o c3) as [now c4].
  destruct (_b64_encrypt_id (Raw.captcha_count st) o c4) as [cdn_id c5].
  cbn [fst] in *.
  eexists cdn_id, solution_id, solution, _. split; [| reflexivity].
  split; [| done]. rewrite Hlen.
  specialize (Hn ltac:(done)). apply elem_of_cons in Hn as [-> | Hn]; [by left |].
  apply elem_of_cons in Hn as [-> | Hn]; [by right |]. by apply elem_of_nil in Hn.
Qed.

End RawIssue.

(** ** The invariant of the records *)

Lemma raw_limit_ok_fresh x : ~ Raw.out_of_range x -> Raw.limit_ok x 0.
Proof.
  destruct x as [m | q | negative |]; cbn; [lia | | tauto | done].
  intros H.
  assert (H20 : (q < 20)%Q) by (apply Qnot_le_lt; tauto).
  assert (H0 : (0 < q)%Q) by (apply Qnot_le_lt; tauto).
  repeat split; try done. change (inject_Z 0) with 0%Q. lra.
Qed.

Lemma raw_limit_ok_next x count :
  Raw.limit_ok x count -> Raw.le x count = false -> Raw.limit_ok x (count + 1).
Proof.
  intros Hok Hle.
  assert (Hnle : ~ (Raw.le x count = true)) by congruence.
  rewrite raw_le_spec in Hnle.
  destruct x as [m | q | negative |]; cbn in *; [lia | | done..].
  destruct Hok as (H0 & H20 & _). repeat split; try done.
  rewrite inject_Z_plus. change (inject_Z 1) with 1%Q.
  apply Qnot_le_lt in Hnle. lra.
Qed.

Section RawInvariant.

Context {Image : Type}.
Variable cap_gen : string -> Eff.t Image.
Variable png : Image -> list Z.
Variable str_lower : string -> string.
Variable urljoin : string -> string -> string.

Implicit Types (st : Raw.flask_app Image) (o : Eff.oracle).

Lemma raw_records_ok_empty c0 : Raw.records_ok (Raw.FlaskApp (Image := Image) ∅ ∅ c0).
Proof. split; apply map_Forall_empty. Qed.

Lemma raw_records_ok_api_captcha rq st o :
  Raw.records_ok st -> Raw.records_ok (Eff.run (Raw.api_captcha urljoin rq st) o).2.
Proof.
  intros [Hcdn Hsol].
  destruct (Raw.numeric (default (Raw.Num (Raw.Int 5)) (Raw.maxCdnAccess rq))) as [x |] eqn:Hx.
  2:{ rewrite raw_api_captcha_type_error by (by left). done. }
  destruct (raw_out_of_range_dec x) as [Hxr | Hxr].
  { destruct (raw_api_captcha_rejects urljoin rq st o x Hx) as (text & ->); [by left | done]. }
  destruct (Raw.numeric (default (Raw.Num (Raw.Int 5)) (Raw.maxSolutionCheck rq)))
    as [y |] eqn:Hy.
  2:{ rewrite raw_api_captcha_type_error by (right; by exists x). done. }
  destruct (raw_out_of_range_dec y) as [Hyr | Hyr].
  { destruct (raw_api_captcha_rejects urljoin rq st o x Hx) as (text & ->);
      [right; by exists y | done]. }
  destruct (raw_api_captcha_accepts urljoin rq st o x y Hx Hy Hxr Hyr)
    as (cdn_id & sid & sol & expiry & Hshape & ->).
  split; cbn [snd Raw.captcha_cdn Raw.captchas_solution].
  - apply map_Forall_insert_2; [| done]. unfold Raw.cdn_record_ok. cbn.
    split; [done |]. split; [by apply raw_limit_ok_fresh |]. by split.
  - apply map_Forall_insert_2; [| done]. unfold Raw.solution_record_ok. cbn.
    split; [done |]. split; [by apply raw_limit_ok_fresh | done].
Qed.

Lemma raw_records_ok_get_img key st o :
  Raw.records_ok st -> Raw.records_ok (Eff.run (Raw.get_img cap_gen png key st) o).2.
Proof.
  intros [Hcdn Hsol]. unfold Eff.run, Raw.get_img.
  destruct (Raw.captcha_cdn st !! key) as [rec |] eqn:Hrec; [| done].
  destruct (Hcdn key rec Hrec) as (Hcount & Hlimit & Himg & Hshape).
  destruct (Raw.le (Raw.CdnRecord.max_cdn_access rec) (Raw.CdnRecord.cdn_accessed_number rec))
    eqn:Hle.
  - destruct (Raw.captchas_solution st !! Raw.CdnRecord.solution_id rec); [| done].
    split; cbn; by apply map_Forall_delete.
  - assert (Hnext : forall img,
              Raw.cdn_record_ok (Raw.CdnRecord.set_image img (Raw.CdnRecord.accessed rec))).
    { intros img. unfold Raw.cdn_record_ok. cbn. split; [lia |].
      split; [by apply raw_limit_ok_next |]. split; [| done]. split; [done | lia]. }
    destruct rec as [sol [img |] t n m sid]; cbn.
    + split; cbn; [| done]. apply map_Forall_insert_2; [| done]. apply (Hnext img).
    + unfold Eff.bind. destruct (cap_gen sol o Eff.start) as [img c1]. cbn.
      split; cbn; [| done]. apply map_Forall_insert_2; [| done]. apply (Hnext img).
Qed.

Lemma raw_records_ok_check_solution sid attempt st :
  Raw.records_ok st -> Raw.records_ok (Raw.check_solution str_lower sid attempt st).2.
Proof.
  intros [Hcdn Hsol]. unfold Raw.check_solution.
  destruct (Raw.captchas_solution st !! sid) as [srec |] eqn:Hrec; [| done].
  destruct (Hsol sid srec Hrec) as (Hcount & Hlimit & Hshape).
  destruct (Raw.le (Raw.SolutionRecord.max_solution_check srec)
                   (Raw.SolutionRecord.solution_checked srec)) eqn:Hle.
  - split; cbn; [done | by apply map_Forall_delete].
  - assert (Hnext : Raw.solution_record_ok (Raw.SolutionRecord.checked srec)).
    { unfold Raw.solution_record_ok. cbn. split; [lia |].
      split; [by apply raw_limit_ok_next | done]. }
    destruct attempt as [[| ch a] |]; cbn; (split; cbn; [done |]);
      by apply map_Forall_insert_2.
Qed.

Lemma raw_records_ok_serve rq o st :
  Raw.records_ok st -> Raw.records_ok (Raw.serve cap_gen png str_lower urljoin rq o st).2.
Proof.
  intros Hst. destruct rq as [body | key | sid attempt]; cbn [Raw.serve].
  - by apply raw_records_ok_api_captcha.
  - pose proof (raw_records_ok_get_img key st o Hst) as H.
    by destruct (Eff.run (Raw.get_img cap_gen png key st) o).
  - pose proof (raw_records_ok_check_solution sid attempt st Hst) as H.
    by destruct (Raw.check_solution str_lower sid attempt st).
Qed.

Lemma raw_records_ok_serve_all rqs st :
  Raw.records_ok st ->
  Raw.records_ok (Raw.serve_all cap_gen png str_lower urljoin rqs st).2.
Proof.
  revert st. induction rqs as [| [rq o] rqs IH]; intros st Hst; [done |].
  cbn [Raw.serve_all]. pose proof (raw_records_ok_serve rq o st Hst) as H1.
  destruct (Raw.serve cap_gen png str_lower urljoin rq o st) as [r st1].
  specialize (IH st1 H1).
  by destruct (Raw.serve_all cap_gen png str_lower urljoin rqs st1) as [rs st2].
Qed.

End RawInvariant.

(** ** On int limits the raw handlers are the int-limit handlers *)

Section RawRefinement.

Context {Image : Type}.
Variable cap_gen : string -> Eff.t Image.
Variable png : Image -> list Z.
Variable str_lower : string -> string.
Variable urljoin : string -> string -> string.

Implicit Types (st : flask_app Image) (o : Eff.oracle).

Lemma raw_get_img_int key st o :
  Eff.run (Raw.get_img cap_gen png key (raw_app st)) o
  = ((Eff.run (get_img cap_gen png key st) o).1,
     raw_app (Eff.run (get_img cap_gen png key st) o).2).
Proof.
  unfold Eff.run, Raw.get_img, get_img. cbn [raw_app Raw.captcha_cdn Raw.captchas_solution].
  rewrite lookup_fmap. destruct (captcha_cdn st !! key) as [rec |]; [| done].
  cbn. rewrite Z.geb_leb.
  destruct (CdnRecord.max_cdn_access rec <=? CdnRecord.cdn_accessed_number rec).
  - rewrite lookup_fmap.
    destruct (captchas_solution st !! CdnRecord.solution_id rec); [| done].
    cbn. unfold raw_app. cbn. by rewrite !fmap_delete.
  - destruct rec as [sol [img |] t n m sid]; cbn.
    + unfold raw_app. cbn. by rewrite fmap_insert.
    + unfold Eff.bind. destruct (cap_gen sol o Eff.start) as [img c1]. cbn.
      unfold raw_app. cbn. by rewrite fmap_insert.
Qed.

Lemma raw_check_solution_int sid attempt st :
  Raw.check_solution str_lower sid attempt (raw_app st)
  = ((check_solution str_lower sid attempt st).1,
     raw_app (check_solution str_lower sid attempt st).2).
Proof.
  unfold Raw.check_solution, check_solution.
  cbn [raw_app Raw.captcha_cdn Raw.captchas_solution].
  rewrite lookup_fmap. destruct (captchas_solution st !! sid) as [srec |]; [| done].
  cbn. rewrite Z.geb_leb.
  destruct (SolutionRecord.max_solution_check srec <=? SolutionRecord.solution_checked srec).
  - unfold raw_app. cbn. by rewrite fmap_delete.
  - destruct attempt as [[| ch a] |]; cbn; unfold raw_app; cbn; by rewrite fmap_insert.
Qed.

Lemma raw_api_captcha_int rq st o :
  Eff.run (Raw.api_captcha urljoin (raw_issue_request rq) (raw_app st)) o
  = (Raw.Answer (Eff.run (api_captcha urljoin rq st) o).1,
     raw_app (Eff.run (api_captcha urljoin rq st) o).2).
Proof.
  unfold Eff.run, Raw.api_captcha, api_captcha. cbv zeta.
  assert (Hd : forall m : option Z,
            default (Raw.Num (Raw.Int 5)) ((fun n => Raw.Num (Raw.Int n)) <$> m)
            = Raw.Num (Raw.Int (default 5 m))) by (by intros [n |]).
  cbn [raw_issue_request Raw.maxCdnAccess Raw.maxSolutionCheck Raw.host_url].
  rewrite !Hd. cbn [Raw.numeric Raw.ge Raw.le].
  destruct (_ || _); [done |]. destruct (_ || _) in |- *; [done |].
  unfold Eff.bind. cbn [raw_app Raw.captcha_count Raw.captcha_cdn Raw.captchas_solution].
  destruct (_b64_encrypt_id (captcha_count st) o Eff.start) as [solution_id c1].
  destruct (Eff.choice 4%nat [4; 5]%nat o c1) as [n c2].
  destruct (_id_generator n o c2) as [solution c3].
  destruct (Eff.utcnow o c3) as [now c4].
  destruct (_b64_encrypt_id (captcha_count st) o c4) as [cdn_id c5].
  cbn. unfold raw_app. cbn. by rewrite !fmap_insert.
Qed.

Lemma raw_serve_int rq o st :
  Raw.serve cap_gen png str_lower urljoin (raw_request rq) o (raw_app st)
  = (Raw.Answer (serve cap_gen png str_lower urljoin rq o st).1,
     raw_app (serve cap_gen png str_lower urljoin rq o st).2).
Proof.
  destruct rq as [body | key | sid attempt]; cbn [raw_request Raw.serve serve].
  - apply raw_api_captcha_int.
  - by rewrite raw_get_img_int.
  - by rewrite raw_check_solution_int.
Qed.

End RawRefinement.

(** ** The claims and properties that depend on the type of a limit *)

Section RawClaims.

Context {Image : Type}.
Variable cap_gen : string -> Eff.t Image.
Variable png : Image -> list Z.
Variable str_lower : string -> string.
Variable urljoin : string -> string -> string.

Implicit Types (st : Raw.flask_app Image) (o : Eff.oracle).


(** X6.  In every state reached from empty tables by any sequence of
    requests, whatever JSON values the limits of the Issue requests are,
    every counter is at least 0 and: an int limit lies in [1, 19] and the
    counter does not exceed it; a finite non-integer limit lies strictly
    between 0 and 20 and the counter stays below it plus one; no limit is
    infinite; a NaN limit bounds nothing.  An image record holds an image
    exactly when it has been fetched at least once, and every stored
    solution is four or five characters of the alphabet. *)
Theorem raw_serve_all_within_limits c0 rqs :
  let st := (Raw.serve_all cap_gen png str_lower urljoin rqs (Raw.FlaskApp ∅ ∅ c0)).2 in
  (forall k rec, Raw.captcha_cdn st !! k = Some rec ->
     0 <= Raw.CdnRecord.cdn_accessed_number rec
     /\ match Raw.CdnRecord.max_cdn_access rec with
        | Raw.Int m => 1 <= m <= 19 /\ Raw.CdnRecord.cdn_accessed_number rec <= m
        | Raw.Float q =>
            (0 < q /\ q < 20 /\ inject_Z (Raw.CdnRecord.cdn_accessed_number rec) < q + 1)%Q
        | Raw.Infinity _ => False
        | Raw.NaN => True
        end
     /\ (Raw.CdnRecord.image rec = None <-> Raw.CdnRecord.cdn_accessed_number rec = 0)
     /\ solution_shape (Raw.CdnRecord.solution rec))
  /\ (forall k s, Raw.captchas_solution st !! k = Some s ->
     0 <= Raw.SolutionRecord.solution_checked s
     /\ match Raw.SolutionRecord.max_solution_check s with
        | Raw.Int m => 1 <= m <= 19 /\ Raw.SolutionRecord.solution_checked s <= m
        | Raw.Float q =>
            (0 < q /\ q < 20 /\ inject_Z (Raw.SolutionRecord.solution_checked s) < q + 1)%Q
        | Raw.Infinity _ => False
        | Raw.NaN => True
        end
     /\ solution_shape (Raw.SolutionRecord.solution s)).
Proof.
  intros st.
  destruct (raw_records_ok_serve_all cap_gen png str_lower urljoin rqs (Raw.FlaskApp ∅ ∅ c0)
              (raw_records_ok_empty c0)) as [Hcdn Hsol].
  fold st in Hcdn, Hsol. split.
  - intros k rec Hrec. exact (Hcdn k rec Hrec).
  - intros k s Hs. exact (Hsol k s Hs).
Qed.

(** Fetches against a record whose limit is NaN are all served. *)
Lemma raw_retrieve_all_nan key os st rec :
  Raw.captcha_cdn st !! key = Some rec ->
  Raw.CdnRecord.max_cdn_access rec = Raw.NaN ->
  exists rs st' rec',
    Raw.retrieve_all cap_gen png key os st = (rs, st')
    /\ length rs = length os
    /\ Forall served rs
    /\ Raw.captcha_cdn st' !! key = Some rec'
    /\ Raw.CdnRecord.max_cdn_access rec' = Raw.NaN
    /\ Raw.CdnRecord.cdn_accessed_number rec'
       = Raw.CdnRecord.cdn_accessed_number rec + Z.of_nat (length os).
Proof.
  revert st rec. induction os as [| o os IH]; intros st rec Hrec Hnan.
  - exists [], st, rec. cbn. repeat split; try done. lia.
  - cbn [Raw.retrieve_all].
    assert (Hstep : exists data rec1,
              Eff.run (Raw.get_img cap_gen png key st) o
              = (File "image/png" data,
                 Raw.FlaskApp (<[key := rec1]> (Raw.captcha_cdn st))
                              (Raw.captchas_solution st) (Raw.captcha_count st))
              /\ Raw.CdnRecord.max_cdn_access rec1 = Raw.NaN
              /\ Raw.CdnRecord.cdn_accessed_number rec1
                 = Raw.CdnRecord.cdn_accessed_number rec + 1).
    { unfold Eff.run, Raw.get_img. rewrite Hrec, Hnan. cbn [Raw.le].
      destruct rec as [sol [img |] t n m sid]; cbn in *.
      - by eexists _, _.
      - unfold Eff.bind. destruct (cap_gen sol o Eff.start) as [img c1]. by eexists _, _. }
    destruct Hstep as (data & rec1 & -> & Hnan1 & Hcount1).
    destruct (IH (Raw.FlaskApp (<[key := rec1]> (Raw.captcha_cdn st))
                               (Raw.captchas_solution st) (Raw.captcha_count st)) rec1)
      as (rs & st' & rec' & -> & Hlen & Hrs & Hrec' & Hnan' & Hcount');
      [apply lookup_insert_eq | exact Hnan1 |].
    eexists _, st', rec'. split; [reflexivity |].
    split; [cbn; by rewrite Hlen |]. split; [constructor; [by eexists | done] |].
    split; [done |]. split; [done |]. rewrite Hcount', Hcount1. cbn [length]. lia.
Qed.

(** X18.  A limit of NaN passes the check of Issue, since every comparison
    with NaN is false, and is never reached: however many times the handle
    is fetched afterwards, every fetch is served. *)
Theorem nan_limit_never_reached rq st o y os :
  Raw.maxCdnAccess rq = Some (Raw.Num Raw.NaN) ->
  Raw.numeric (default (Raw.Num (Raw.Int 5)) (Raw.maxSolutionCheck rq)) = Some y ->
  ~ Raw.out_of_range y ->
  exists cdn_id solution_id st1 rs st2,
    Eff.run (Raw.api_captcha urljoin rq st) o
      = (Raw.Answer (Json 200 (issued_body urljoin (Raw.host_url rq) cdn_id solution_id)),
         st1)
    /\ Raw.retrieve_all cap_gen png cdn_id os st1 = (rs, st2)
    /\ length rs = length os
    /\ Forall served rs
    /\ is_Some (Raw.captcha_cdn st2 !! cdn_id).
Proof.
  intros Hnan Hy Hyr.
  destruct (raw_api_captcha_accepts urljoin rq st o Raw.NaN y)
    as (cdn_id & sid & sol & expiry & _ & Hrun); [by rewrite Hnan | done | by intros [] | done |].
  destruct (raw_retrieve_all_nan cdn_id os
              (Raw.FlaskApp
                 (<[cdn_id := Raw.CdnRecord.Make sol None expiry 0 Raw.NaN sid]>
                    (Raw.captcha_cdn st))
                 (<[sid := Raw.SolutionRecord.Make sol y 0]> (Raw.captchas_solution st))
                 (Raw.captcha_count st + 1))
              (Raw.CdnRecord.Make sol None expiry 0 Raw.NaN sid))
    as (rs & st2 & rec' & Hall & Hlen & Hrs & Hrec' & _);
    [apply lookup_insert_eq | reflexivity |].
  eexists cdn_id, sid, _, rs, st2. split; [exact Hrun |]. split; [exact Hall |].
  split; [done |]. split; [done | by eexists].
Qed.

End RawClaims.


(** The record issued with the limit 19.5 is served twenty times; the
    twenty-first fetch finds the limit reached. *)
Example fraction_limit_served_20_times :
  map status_of
    (Raw.retrieve_all Demo.cap_gen Demo.png Demo.cdn_id (replicate 21 idle)
       Raw.fraction_issue.2).1
  = replicate 20 200 ++ [418].
Proof. by vm_compute. Qed.

Lemma nan_limit_never_reached_witness :
  Raw.maxCdnAccess Raw.nan_request = Some (Raw.Num Raw.NaN)
  /\ Raw.numeric (default (Raw.Num (Raw.Int 5)) (Raw.maxSolutionCheck Raw.nan_request))
     = Some (Raw.Int 5)
  /\ ~ Raw.out_of_range (Raw.Int 5)
  /\ exists cdn_id solution_id st1 rs st2,
       Eff.run (Raw.api_captcha Demo.urljoin Raw.nan_request Raw.empty) Demo.oracle
         = (Raw.Answer (Json 200 (issued_body Demo.urljoin (Raw.host_url Raw.nan_request)
                                    cdn_id solution_id)), st1)
       /\ Raw.retrieve_all Demo.cap_gen Demo.png cdn_id (replicate 100 idle) st1 = (rs, st2)
       /\ length rs = length (replicate 100 idle)
       /\ Forall served rs
       /\ is_Some (Raw.captcha_cdn st2 !! cdn_id).
Proof.
  assert (H1 : Raw.maxCdnAccess Raw.nan_request = Some (Raw.Num Raw.NaN)) by reflexivity.
  assert (H2 : Raw.numeric (default (Raw.Num (Raw.Int 5))
                              (Raw.maxSolutionCheck Raw.nan_request))
               = Some (Raw.Int 5)) by reflexivity.
  assert (H3 : ~ Raw.out_of_range (Raw.Int 5)) by (simpl; lia).
  split; [exact H1 |]. split; [exact H2 |]. split; [exact H3 |].
  exact (nan_limit_never_reached Demo.cap_gen Demo.png Demo.urljoin Raw.nan_request Raw.empty
           Demo.oracle (Raw.Int 5) (replicate 100 idle) H1 H2 H3).
Defined.
